(** * arxivwatch: a shallow embedding of the watcher and its ledger

    The development follows the Python sources module by module:
    - [PyStr]      the [str] operations the code calls ([in], [split],
                   [startswith], [replace]);
    - [Rss]        [rss.py]: feed entries, [Paper], [_parse_entry],
                   [_parse_feed], [fetch_papers];
    - [Json]       the part of the [json] module [storage.py] relies on;
    - [Storage]    [storage.py]: [load_notified_ids], [save_notified_ids],
                   [add_notified_id];
    - [Pdf]        [pdf.py]: [get_pdf_url], [download_pdf],
                   [extract_first_page];
    - [Summarizer], [Notifier], [Config]  what [main] calls in
                   [summarizer.py], [notifier.py] and [config.py];
    - [Main]       [main.py]: the orchestration in [main];
    - [Sample]     a concrete environment on which the theorems are run.
    The definitions come first, the theorems about them after.

    Python [str] values are modelled by [string]; a character is a code
    point below 256.  Python [int] is [Z].  A [set[str]] is a [gset string].
    Calls that leave the process (the environment read by pydantic, the
    network, SMTP, the generative model, PDF decoding, the regular
    expressions) are the fields of the class [Env]; the effectful ones read
    and write an abstract [World]. *)

From Stdlib Require Import ZArith Ascii String List.
From stdpp Require Import base tactics option list sorting gmap strings.

Local Open Scope string_scope.
Local Open Scope Z_scope.

(** ** Exceptions and outcomes *)

Inductive exn : Type :=
| AttributeError
| TypeError
| IndexError
| ValueError
| JSONDecodeError
| OSError
| HTTPError
| ValidationError
| ExternalError (kind : string).

(** What a call does: it returns a value or raises.  [Unmodelled] marks a
    result that exists in Python but has no counterpart in the types used
    here (a set whose members are not strings of code points below 256);
    no handler catches it and nothing is proved about it. *)
Inductive outcome (A : Type) : Type :=
| Return (a : A)
| Raise (e : exn)
| Unmodelled.
Arguments Return {A} a.
Arguments Raise {A} e.
Arguments Unmodelled {A}.

(** ** Python [str] operations *)
Module PyStr.

(** [s.startswith(p)] *)
Fixpoint startswith (p s : string) : bool :=
  match p, s with
  | "", _ => true
  | String a p', String b s' => if Ascii.eqb a b then startswith p' s' else false
  | String _ _, "" => false
  end.

(** [sub in s] *)
Fixpoint contains (sub s : string) : bool :=
  startswith sub s ||
  match s with
  | "" => false
  | String _ s' => contains sub s'
  end.

Fixpoint drop (n : nat) (s : string) : string :=
  match n, s with
  | O, _ => s
  | S n', String _ s' => drop n' s'
  | S _, "" => ""
  end.

(** [s.split(sep)] for a non-empty [sep]: the text is scanned from the
    left, every occurrence found closes the current piece and the scan
    resumes after it.  [skip] counts the characters of the occurrence
    that are still to be stepped over.  The result is never empty; it is
    returned as its first piece and the remaining ones. *)
Fixpoint split_go (sep : string) (skip : nat) (s : string) : string * list string :=
  match s with
  | "" => ("", [])
  | String c s' =>
      match skip with
      | S k => split_go sep k s'
      | O =>
          if startswith sep s
          then ("", let '(p, ps) := split_go sep (String.length sep - 1) s' in p :: ps)
          else let '(p, ps) := split_go sep 0 s' in (String c p, ps)
      end
  end.

Definition split (sep s : string) : list string :=
  let '(p, ps) := split_go sep 0 s in p :: ps.

(** [l[-1]] *)
Definition last_item {A} (l : list A) : outcome A :=
  match last l with
  | Some x => Return x
  | None => Raise IndexError
  end.

(** [s.replace(old, new)] for a non-empty [old], same scan as [split]. *)
Fixpoint replace_go (old new : string) (skip : nat) (s : string) : string :=
  match s with
  | "" => ""
  | String c s' =>
      match skip with
      | S k => replace_go old new k s'
      | O =>
          if startswith old s
          then new ++ replace_go old new (String.length old - 1) s'
          else String c (replace_go old new 0 s')
      end
  end.

Definition replace (old new s : string) : string := replace_go old new 0 s.

(** The text after the last place where [sep] occurs in [s], if it
    occurs at all: occurrences further right are looked for first. *)
Fixpoint after_last (sep s : string) : option string :=
  match s with
  | "" => if startswith sep "" then Some "" else None
  | String _ s' =>
      match after_last sep s' with
      | Some t => Some t
      | None => if startswith sep s then Some (drop (String.length sep) s) else None
      end
  end.

End PyStr.

(** The last piece of the split [r], when the separator was found. *)
Definition tail_piece (r : string * list string) : option string := last (snd r).

(** ** [sorted] *)
Module PySort.

(** [sorted(l, key=key, reverse=True)] with [str] keys.  Python's sort is
    stable, also under [reverse=True]: items whose keys are equal keep the
    order they have in [l].  Insertion from the right gives that order: an
    item goes in front of the first item whose key is not strictly greater. *)
Fixpoint insert_desc {A} (key : A → string) (x : A) (l : list A) : list A :=
  match l with
  | [] => [x]
  | y :: r => if String.ltb (key x) (key y) then y :: insert_desc key x r else x :: y :: r
  end.

Fixpoint sorted_desc {A} (key : A → string) (l : list A) : list A :=
  match l with
  | [] => []
  | x :: r => insert_desc key x (sorted_desc key r)
  end.

(** [sorted(s)] for a set of [str]: ascending, and the members are distinct. *)
Definition sorted_set (s : gset string) : list string :=
  merge_sort String.le (elements s).

End PySort.

(** ** The process state and the monad of the embedding *)

Inductive fval : Type :=
| FStr (s : string)
| FInt (n : Z)
| FBool (b : bool)
| FExn (e : exn).

(** One call of the structlog logger: level, message, key-value fields. *)
Inductive level : Type := Info | Error.

Record event : Type := Log {
  ev_level : level;
  ev_msg : string;
  ev_fields : list (string * fval) }.

(** The file system as far as [storage.py] sees it: the text of every
    file that exists, as [f.read()] gives it, and the paths on which [open]
    (or the [mkdir] before it) fails with [OSError]. *)
Record FS : Type := MkFS {
  files : gmap string string;
  denied : gset string }.

Record Paper : Type := MkPaper {
  id : string;
  title : string;
  abstract : string;
  link : string;
  authors : list string;
  published : string;
  categories : list string;
  announce_type : option string }.

(** A feedparser entry.  A field that the entry lacks is [None]: reading
    it as an attribute raises [AttributeError], [entry.get] gives the
    default.  [entry_authors] holds the ["name"] of each author dict and
    [entry_tags] the ["term"] of each tag, when they have one. *)
Record Entry : Type := MkEntry {
  entry_id : option string;
  entry_title : option string;
  entry_link : option string;
  entry_summary : option string;
  entry_published : option string;
  entry_authors : option (list (option string));
  entry_author : option string;
  entry_tags : option (list (option string));
  entry_arxiv_announce_type : option string }.

(** The fields of [config.Settings] that [main] reads. *)
Record Settings : Type := MkSettings {
  rss_urls : list string;
  gemini_model : string;
  gemini_prompt : string;
  gemini_pdf_pages : Z;
  smtp_host : string;
  smtp_port : Z;
  storage_file : string }.

Class Env : Type := {
  World : Type;
  Page : Type;
  (** [Settings()]: pydantic reads the environment and [.env]; a missing
      required field raises. The [rss_urls] it yields are not yet expanded. *)
  read_settings : World → exn + Settings;
  (** [feedparser.parse(url)] *)
  feedparser_parse : string → World → World * (exn + list Entry);
  (** [httpx.get(url, ...)] followed by [raise_for_status()] *)
  httpx_get : string → World → World * (exn + list Byte.byte);
  (** [PdfReader(io.BytesIO(content)).pages] *)
  pdf_pages : list Byte.byte → exn + list Page;
  (** [PdfWriter] with the given pages added, written to bytes *)
  pdf_write : list Page → list Byte.byte;
  (** [base64.standard_b64encode(content).decode("utf-8")] *)
  b64encode : list Byte.byte → string;
  (** [prompt_template.format(title=paper.title)] *)
  format_prompt : string → string → exn + string;
  (** the upload of the PDF and [generate_content] in [summarize], from
      the model name, the prompt and the base64 text of the PDF: the text
      of the response and its three token counts *)
  gemini_generate : string → string → string → World → World * (exn + string * (Z * Z * Z));
  (** [_create_message] and the SMTP session of [send_notification] *)
  smtp_send : Paper → string → World → World * (exn + unit);
  (** [re.sub(r"<[^>]+>", "", s)] *)
  re_sub_tags : string → string;
  (** [re.sub(r"^arXiv:\d+\.\d+v?\d*\s*\[[^\]]+\]\s*", "", s)] *)
  re_sub_arxiv_prefix : string → string;
  (** [s.strip()] *)
  strip : string → string }.

Record state `{Env} : Type := MkState {
  world : World;
  fs : FS;
  log : list event }.
Arguments MkState {_} _ _ _.

(** The state after one more log line, and after a file was written. *)
Definition logged `{Env} (st : state) (ev : event) : state :=
  MkState (world st) (fs st) (log st ++ [ev]).

Definition written `{Env} (st : state) (path text : string) : state :=
  MkState (world st) (MkFS (<[path := text]> (files (fs st))) (denied (fs st))) (log st).

Definition M `{Env} (A : Type) : Type := state → state * outcome A.

Definition ret `{Env} {A} (a : A) : M A := λ st, (st, Return a).

Definition bind `{Env} {A B} (m : M A) (k : A → M B) : M B :=
  λ st, match m st with
        | (st', Return a) => k a st'
        | (st', Raise e) => (st', Raise e)
        | (st', Unmodelled) => (st', Unmodelled)
        end.

Definition raise `{Env} {A} (e : exn) : M A := λ st, (st, Raise e).

Definition lift `{Env} {A} (o : outcome A) : M A := λ st, (st, o).

(** [try: m  except <exceptions accepted by catches> as e: h e] *)
Definition try_except `{Env} {A} (m : M A) (catches : exn → bool) (h : exn → M A) : M A :=
  λ st, match m st with
        | (st', Raise e) => if catches e then h e st' else (st', Raise e)
        | r => r
        end.

#[global] Instance M_ret `{Env} : MRet M := λ A, ret.
#[global] Instance M_bind `{Env} : MBind M := λ A B k m, bind m k.

(** [except Exception]; every exception of the embedding derives from it. *)
Definition any_exception (e : exn) : bool := true.

Definition logger `{Env} (l : level) (msg : string) (fields : list (string * fval)) : M unit :=
  λ st, (MkState (world st) (fs st) (log st ++ [Log l msg fields]), Return tt).

(** A call into the environment. *)
Definition call `{Env} {A} (op : World → World * (exn + A)) : M A :=
  λ st, let '(w, r) := op (world st) in
        (MkState w (fs st) (log st),
         match r with inl e => Raise e | inr a => Return a end).

Definition of_sum {A} (r : exn + A) : outcome A :=
  match r with inl e => Raise e | inr a => Return a end.

(** [for x in l: body x], with the loop's local state [acc] passed along *)
Fixpoint for_each `{Env} {A S} (l : list A) (body : A → S → M S) (acc : S) : M S :=
  match l with
  | [] => ret acc
  | x :: r => acc' ← body x acc; for_each r body acc'
  end.

Definition len {A} (l : list A) : Z := Z.of_nat (length l).

#[global] Instance outcome_ret : MRet outcome := λ A, Return.
#[global] Instance outcome_bind : MBind outcome := λ A B k o,
  match o with
  | Return a => k a
  | Raise e => Raise e
  | Unmodelled => Unmodelled
  end.

(** ** Properties of computations

    [keeps I m]: every run of [m] takes a state to one related to it by
    [I].  [frame P] is the relation used throughout: the file system is
    left as it was and the log grows by lines that satisfy [P].
    [modelled m]: no run of [m] leaves the model.  [total m]: every run of
    [m] returns, none raises. *)

Definition keeps `{Env} {A} (I : state → state → Prop) (m : M A) : Prop :=
  ∀ st, I st (m st).1.

Definition frame `{Env} (P : event → Prop) (st st' : state) : Prop :=
  fs st' = fs st ∧ ∃ delta, log st' = (log st ++ delta)%list ∧ Forall P delta.

Definition modelled `{Env} {A} (m : M A) : Prop :=
  ∀ st, (m st).2 ≠ Unmodelled.

Definition total `{Env} {A} (m : M A) : Prop :=
  ∀ st, ∃ a, (m st).2 = Return a.

(** The log lines that speak of a paper being processed or notified. *)
Definition is_notice (ev : event) : bool :=
  String.eqb (ev_msg ev) "processing paper" || String.eqb (ev_msg ev) "sent email notification".

(** [about papers ev]: if [ev] is such a line, it carries the id of one of [papers]. *)
Definition about (papers : list Paper) (ev : event) : Prop :=
  is_notice ev = true → ∃ p, p ∈ papers ∧ ("paper_id", FStr (id p)) ∈ ev_fields ev.

Definition quiet (ev : event) : Prop := is_notice ev = false.

(** [grows P]: the log grows by lines that satisfy [P]. *)
Definition grows `{Env} (P : event → Prop) (st st' : state) : Prop :=
  ∃ delta, log st' = (log st ++ delta)%list ∧ Forall P delta.

(** How many lines of a log carry the message [msg]. *)
Definition count_msg (msg : string) (l : list event) : nat :=
  length (filter (λ ev, ev_msg ev = msg) l).

(** The lines by which the loop of [main] reports on a paper, and the line
    that reports the email sent for it. *)
Definition is_report (ev : event) : bool :=
  String.eqb (ev_msg ev) "processing paper"
  || String.eqb (ev_msg ev) "successfully processed paper"
  || String.eqb (ev_msg ev) "failed to process paper"
  || String.eqb (ev_msg ev) "sent email notification".

Definition silent (ev : event) : Prop := is_report ev = false.

(** ** rss.py *)
Module Rss.

(** [entry.name] on a [FeedParserDict] *)
Definition attr {A} (field : option A) : outcome A :=
  match field with
  | Some a => Return a
  | None => Raise AttributeError
  end.

(** [entry.id.split("/abs/")[-1] if "abs" in entry.id else entry.id] *)
Definition paper_id (entry_id : string) : outcome string :=
  if PyStr.contains "abs" entry_id
  then PyStr.last_item (PyStr.split "/abs/" entry_id)
  else Return entry_id.

Definition _parse_entry `{Env} (entry : Entry) : outcome Paper :=
  raw_id ← attr (entry_id entry);
  paper_id ← paper_id raw_id;
  let authors :=
    match entry_authors entry with
    | Some (a :: l) => (λ name, default "" name) <$> (a :: l)
    | _ => match entry_author entry with
           | Some a => [a]
           | None => []
           end
    end in
  let abstract :=
    match entry_summary entry with
    | Some (String c s) => strip (re_sub_arxiv_prefix (re_sub_tags (String c s)))
    | _ => ""
    end in
  let categories :=
    match entry_tags entry with
    | Some tags => (λ term, default "" term) <$> tags
    | None => []
    end in
  let announce_type :=
    match entry_arxiv_announce_type entry with
    | Some (String c s) => Some (String c s)
    | _ => None
    end in
  title ← attr (entry_title entry);
  link ← attr (entry_link entry);
  Return (MkPaper paper_id (strip title) abstract link authors
            (default "" (entry_published entry)) categories announce_type).

Definition _parse_feed `{Env} (url : string) : M (list Paper) :=
  entries ← call (feedparser_parse url);
  for_each entries
    (λ entry papers,
       try_except
         (paper ← lift (_parse_entry entry); mret (papers ++ [paper])%list)
         any_exception
         (λ e,
            logger Error "failed to parse entry"
              [("entry_id", FStr (default "unknown" (entry_id entry))); ("error", FExn e)];;
            mret papers))
    [].

Definition fetch_papers `{Env} (feed_urls : list string) : M (list Paper) :=
  all_papers ← for_each feed_urls
    (λ url all_papers,
       try_except
         (papers ← _parse_feed url;
          logger Info "fetched papers from feed" [("url", FStr url); ("count", FInt (len papers))];;
          mret (all_papers ++ papers)%list)
         any_exception
         (λ e,
            logger Error "failed to fetch feed" [("url", FStr url); ("error", FExn e)];;
            mret all_papers))
    [];
  logger Info "fetched all papers" [("total_count", FInt (len all_papers))];;
  mret all_papers.

(** What one entry of a feed comes to in [_parse_feed]: its paper when
    [_parse_entry] returns, the line logged by the handler when it raises. *)
Definition parsed `{Env} (entry : Entry) : option Paper :=
  match _parse_entry entry with
  | Return paper => Some paper
  | _ => None
  end.

Definition parse_failure `{Env} (entry : Entry) : option event :=
  match _parse_entry entry with
  | Raise e =>
      Some (Log Error "failed to parse entry"
              [("entry_id", FStr (default "unknown" (entry_id entry))); ("error", FExn e)])
  | _ => None
  end.

End Rss.

(** ** The [json] module, as far as [storage.py] uses it *)
Module Json.

#[warnings="-register-all"]
Inductive json : Type :=
| JNull
| JBool (b : bool)
| JNum (lexeme : string)
| JStr (s : string)
| JArr (items : list json)
| JObj (members : list (string * json)).

Definition quote : ascii := "034"%char.
Definition backslash : ascii := "092"%char.
Definition newline : ascii := "010"%char.

(** *** [json.dumps(obj, indent=2)] *)

Definition hex_digit (n : N) : ascii :=
  match n with
  | 0 => "0" | 1 => "1" | 2 => "2" | 3 => "3" | 4 => "4" | 5 => "5" | 6 => "6" | 7 => "7"
  | 8 => "8" | 9 => "9" | 10 => "a" | 11 => "b" | 12 => "c" | 13 => "d" | 14 => "e" | _ => "f"
  end%N%char.

(** [ensure_ascii] is on: the quote, the backslash and everything outside
    the range from the space to the tilde are escaped. *)
Definition escape_char (c : ascii) : string :=
  if Ascii.eqb c quote then String backslash (String quote "")
  else if Ascii.eqb c backslash then String backslash (String backslash "")
  else if Ascii.eqb c "010" then "\n"
  else if Ascii.eqb c "013" then "\r"
  else if Ascii.eqb c "009" then "\t"
  else if Ascii.eqb c "008" then "\b"
  else if Ascii.eqb c "012" then "\f"
  else if (N_of_ascii c <? 32)%N || (126 <? N_of_ascii c)%N
       then "\u00" ++ String (hex_digit (N_of_ascii c / 16)) (String (hex_digit (N_of_ascii c mod 16)) "")
       else String c "".

Fixpoint escape (s : string) : string :=
  match s with
  | "" => ""
  | String c s' => escape_char c ++ escape s'
  end.

Definition encode_str (s : string) : string :=
  String quote (escape s ++ String quote "").

Fixpoint spaces (n : nat) : string :=
  match n with
  | O => ""
  | S n' => String " " (spaces n')
  end.

Definition newline_indent (lvl : nat) : string := String newline (spaces (2 * lvl)).

Fixpoint join (sep : string) (l : list string) : string :=
  match l with
  | [] => ""
  | [x] => x
  | x :: r => x ++ sep ++ join sep r
  end.

Fixpoint dumps (lvl : nat) (v : json) : string :=
  match v with
  | JNull => "null"
  | JBool true => "true"
  | JBool false => "false"
  | JNum lexeme => lexeme
  | JStr s => encode_str s
  | JArr [] => "[]"
  | JArr items =>
      "[" ++ newline_indent (S lvl)
          ++ join ("," ++ newline_indent (S lvl)) (List.map (dumps (S lvl)) items)
          ++ newline_indent lvl ++ "]"
  | JObj [] => "{}"
  | JObj members =>
      "{" ++ newline_indent (S lvl)
          ++ join ("," ++ newline_indent (S lvl))
               (List.map (λ kv, match kv with (k, x) => encode_str k ++ ": " ++ dumps (S lvl) x end)
                  members)
          ++ newline_indent lvl ++ "}"
  end.

(** *** [json.loads(text)] *)

(** A scan gives a value and the text left, fails (the decoder raises
    [JSONDecodeError]), or meets a [\u] escape of a code point from 256 on,
    which a [string] cannot hold: [PNoModel]. *)
Inductive presult (A : Type) : Type :=
| POk (a : A) (rest : string)
| PErr
| PNoModel.
Arguments POk {A} a rest.
Arguments PErr {A}.
Arguments PNoModel {A}.

Definition pmap {A B} (f : A → B) (r : presult A) : presult B :=
  match r with
  | POk a rest => POk (f a) rest
  | PErr => PErr
  | PNoModel => PNoModel
  end.

Definition is_ws (c : ascii) : bool :=
  Ascii.eqb c " " || Ascii.eqb c "009" || Ascii.eqb c "010" || Ascii.eqb c "013".

Fixpoint skip_ws (s : string) : string :=
  match s with
  | "" => ""
  | String c s' => if is_ws c then skip_ws s' else s
  end.

Definition is_digit (c : ascii) : bool :=
  (48 <=? N_of_ascii c)%N && (N_of_ascii c <=? 57)%N.

Definition hex_val (c : ascii) : option N :=
  let n := N_of_ascii c in
  if ((48 <=? n) && (n <=? 57))%N then Some (n - 48)%N
  else if ((97 <=? n) && (n <=? 102))%N then Some (n - 87)%N
  else if ((65 <=? n) && (n <=? 70))%N then Some (n - 55)%N
  else None.

Definition hex4 (a b c d : ascii) : option N :=
  x ← hex_val a; y ← hex_val b; z ← hex_val c; w ← hex_val d;
  Some (((x * 16 + y) * 16 + z) * 16 + w)%N.

Definition unescape (c : ascii) : option ascii :=
  if Ascii.eqb c quote then Some quote
  else if Ascii.eqb c backslash then Some backslash
  else if Ascii.eqb c "/" then Some "/"%char
  else if Ascii.eqb c "b" then Some "008"%char
  else if Ascii.eqb c "f" then Some "012"%char
  else if Ascii.eqb c "n" then Some "010"%char
  else if Ascii.eqb c "r" then Some "013"%char
  else if Ascii.eqb c "t" then Some "009"%char
  else None.

(** The body of a string, from the character after its opening quote. *)
Fixpoint scan_string (s : string) : presult string :=
  match s with
  | "" => PErr
  | String c s1 =>
      if Ascii.eqb c quote then POk "" s1
      else if Ascii.eqb c backslash then
        match s1 with
        | "" => PErr
        | String e s2 =>
            if Ascii.eqb e "u" then
              match s2 with
              | String h1 (String h2 (String h3 (String h4 s3))) =>
                  match hex4 h1 h2 h3 h4 with
                  | Some n =>
                      if (n <? 256)%N
                      then pmap (String (ascii_of_N n)) (scan_string s3)
                      else PNoModel
                  | None => PErr
                  end
              | _ => PErr
              end
            else
              match unescape e with
              | Some ch => pmap (String ch) (scan_string s2)
              | None => PErr
              end
        end
      else if (N_of_ascii c <? 32)%N then PErr
      else pmap (String c) (scan_string s1)
  end.

Fixpoint span_digits (s : string) : string * string :=
  match s with
  | "" => ("", "")
  | String c s' =>
      if is_digit c then let '(d, r) := span_digits s' in (String c d, r) else ("", s)
  end.

(** The number pattern of the decoder matched at the start of [s]: an
    optional minus, then a zero or a digit run that starts with 1 to 9, then
    optionally a dot with digits, then optionally an exponent with digits. *)
Definition scan_number (s : string) : option (string * string) :=
  let '(sign, s1) :=
    match s with
    | String "-" r => ("-", r)
    | _ => ("", s)
    end in
  let int_part :=
    match s1 with
    | String "0" r => Some ("0", r)
    | String c _ => if is_digit c then Some (span_digits s1) else None
    | "" => None
    end in
  '(int, s2) ← int_part;
  let '(frac, s3) :=
    match s2 with
    | String "." r =>
        match span_digits r with
        | ("", _) => ("", s2)
        | (d, r') => (String "." d, r')
        end
    | _ => ("", s2)
    end in
  let '(exp, s4) :=
    match s3 with
    | String e r =>
        if Ascii.eqb e "e" || Ascii.eqb e "E" then
          let '(sg, r1) :=
            match r with
            | String "+" r' => ("+", r')
            | String "-" r' => ("-", r')
            | _ => ("", r)
            end in
          match span_digits r1 with
          | ("", _) => ("", s3)
          | (d, r') => (String e (sg ++ d), r')
          end
        else ("", s3)
    | "" => ("", s3)
    end in
  Some (sign ++ int ++ frac ++ exp, s4).

Definition scan_literal (s : string) : presult json :=
  if PyStr.startswith "null" s then POk JNull (PyStr.drop 4 s)
  else if PyStr.startswith "true" s then POk (JBool true) (PyStr.drop 4 s)
  else if PyStr.startswith "false" s then POk (JBool false) (PyStr.drop 5 s)
  else match scan_number s with
       | Some (lexeme, rest) => POk (JNum lexeme) rest
       | None =>
           if PyStr.startswith "NaN" s then POk (JNum "NaN") (PyStr.drop 3 s)
           else if PyStr.startswith "Infinity" s then POk (JNum "Infinity") (PyStr.drop 8 s)
           else if PyStr.startswith "-Infinity" s then POk (JNum "-Infinity") (PyStr.drop 9 s)
           else PErr
       end.

(** The scanner.  [scan_value] reads one value at the start of [s];
    [scan_items] reads the values of an array up to its bracket, from the
    first character of a value; [scan_members] reads the members of an
    object up to its brace, from the quote that opens a key.  [fuel]
    bounds the nesting of the calls. *)
Fixpoint scan_value (fuel : nat) (s : string) : presult json :=
  match fuel with
  | O => PNoModel
  | S fuel' =>
      match s with
      | "" => PErr
      | String c s1 =>
          if Ascii.eqb c quote then pmap JStr (scan_string s1)
          else if Ascii.eqb c "[" then
            match skip_ws s1 with
            | String "]" rest => POk (JArr []) rest
            | s2 => pmap JArr (scan_items fuel' s2)
            end
          else if Ascii.eqb c "{" then
            match skip_ws s1 with
            | String "}" rest => POk (JObj []) rest
            | s2 => pmap JObj (scan_members fuel' s2)
            end
          else scan_literal s
      end
  end
with scan_items (fuel : nat) (s : string) : presult (list json) :=
  match fuel with
  | O => PNoModel
  | S fuel' =>
      match scan_value fuel' s with
      | POk v rest =>
          match skip_ws rest with
          | String "]" rest' => POk [v] rest'
          | String "," rest' => pmap (cons v) (scan_items fuel' (skip_ws rest'))
          | _ => PErr
          end
      | PErr => PErr
      | PNoModel => PNoModel
      end
  end
with scan_members (fuel : nat) (s : string) : presult (list (string * json)) :=
  match fuel with
  | O => PNoModel
  | S fuel' =>
      match s with
      | String c s1 =>
          if Ascii.eqb c quote then
            match scan_string s1 with
            | POk k rest =>
                match skip_ws rest with
                | String ":" rest1 =>
                    match scan_value fuel' (skip_ws rest1) with
                    | POk v rest2 =>
                        match skip_ws rest2 with
                        | String "}" rest' => POk [(k, v)] rest'
                        | String "," rest' => pmap (cons (k, v)) (scan_members fuel' (skip_ws rest'))
                        | _ => PErr
                        end
                    | PErr => PErr
                    | PNoModel => PNoModel
                    end
                | _ => PErr
                end
            | PErr => PErr
            | PNoModel => PNoModel
            end
          else PErr
      | "" => PErr
      end
  end.

Definition loads (text : string) : outcome json :=
  match scan_value (2 * String.length text + 2) (skip_ws text) with
  | POk v rest =>
      match skip_ws rest with
      | "" => Return v
      | _ => Raise JSONDecodeError
      end
  | PErr => Raise JSONDecodeError
  | PNoModel => Unmodelled
  end.

(** [data.get(key, default)]: only a dict has [get]; of the members with
    the same key, [json] keeps the last one. *)
Fixpoint lookup_last (key : string) (members : list (string * json)) : option json :=
  match members with
  | [] => None
  | (k, v) :: r =>
      match lookup_last key r with
      | Some v' => Some v'
      | None => if String.eqb k key then Some v else None
      end
  end.

Definition get (data : json) (key : string) (dflt : json) : outcome json :=
  match data with
  | JObj members => Return (default dflt (lookup_last key members))
  | _ => Raise AttributeError
  end.

(** The keys of a decoded object, as the dict has them: one per key. *)
Definition keys (members : list (string * json)) : gset string :=
  list_to_set (fst <$> members).

Fixpoint chars (s : string) : list string :=
  match s with
  | "" => []
  | String c s' => String c "" :: chars s'
  end.

Definition hashable (v : json) : bool :=
  match v with
  | JArr _ | JObj _ => false
  | _ => true
  end.

Fixpoint strs (items : list json) : option (list string) :=
  match items with
  | [] => Some []
  | JStr s :: r => l ← strs r; Some (s :: l)
  | _ :: _ => None
  end.

(** [set(v)] for a decoded value [v]: a number, a boolean and [None]
    are not iterable, a list or a dict inside a list is not hashable; a
    [str] gives its characters and a dict its keys.  A list with numbers,
    booleans or [None] in it gives a set that is not a [set[str]]. *)
Definition to_set (v : json) : outcome (gset string) :=
  match v with
  | JNull | JBool _ | JNum _ => Raise TypeError
  | JStr s => Return (list_to_set (chars s))
  | JObj members => Return (keys members)
  | JArr items =>
      if forallb hashable items
      then match strs items with
           | Some l => Return (list_to_set l)
           | None => Unmodelled
           end
      else Raise TypeError
  end.

End Json.

(** ** storage.py *)
Module Storage.
Import Json.

(** [Path.exists()] *)
Definition path_exists `{Env} (path : string) : M bool :=
  λ st, (st, Return (bool_decide (is_Some (files (fs st) !! path)))).

(** [open("r")] and [f.read()] *)
Definition read_text `{Env} (path : string) : M string :=
  λ st, if decide (path ∈ denied (fs st)) then (st, Raise OSError)
        else match files (fs st) !! path with
             | Some text => (st, Return text)
             | None => (st, Raise OSError)
             end.

(** [parent.mkdir(parents=True, exist_ok=True)], [open("w")] and the
    writes of [json.dump] *)
Definition write_text `{Env} (path text : string) : M unit :=
  λ st, if decide (path ∈ denied (fs st)) then (st, Raise OSError)
        else (MkState (world st) (MkFS (<[path := text]> (files (fs st))) (denied (fs st))) (log st),
              Return tt).

(** [PaperStorage(storage_path)] *)
Definition init `{Env} (storage_path : string) : M unit :=
  logger Info "initialized paper storage" [("path", FStr storage_path)].

(** [except (json.JSONDecodeError, OSError)] *)
Definition decode_or_os_error (e : exn) : bool :=
  match e with
  | JSONDecodeError | OSError => true
  | _ => false
  end.

Definition load_failed (storage_path : string) (e : exn) : event :=
  Log Error "failed to load storage file" [("error", FExn e); ("path", FStr storage_path)].


(** [except OSError] *)
Definition os_error (e : exn) : bool :=
  match e with
  | OSError => true
  | _ => false
  end.

Definition load_notified_ids `{Env} (storage_path : string) : M (gset string) :=
  found ← path_exists storage_path;
  if negb found then
    logger Info "no existing storage file found, starting fresh" [];;
    mret ∅
  else
    try_except
      (text ← read_text storage_path;
       data ← lift (loads text);
       ids ← lift (get data "notified_ids" (JArr []));
       notified_ids ← lift (to_set ids);
       logger Info "loaded notified paper ids" [("count", FInt (Z.of_nat (size notified_ids)))];;
       mret notified_ids)
      decode_or_os_error
      (λ e,
         logger Error "failed to load storage file" [("error", FExn e); ("path", FStr storage_path)];;
         mret ∅).

(** The text [json.dump({"notified_ids": sorted(notified_ids)}, f, indent=2)] writes. *)
Definition ledger_text (notified_ids : gset string) : string :=
  dumps 0 (JObj [("notified_ids", JArr (JStr <$> PySort.sorted_set notified_ids))]).

Definition save_notified_ids `{Env} (storage_path : string) (notified_ids : gset string) : M unit :=
  try_except
    (write_text storage_path (ledger_text notified_ids);;
     logger Info "saved notified paper ids" [("count", FInt (Z.of_nat (size notified_ids)))])
    os_error
    (λ e,
       logger Error "failed to save storage file" [("error", FExn e); ("path", FStr storage_path)];;
       raise e).

Definition add_notified_id `{Env} (storage_path paper_id : string) : M unit :=
  notified_ids ← load_notified_ids storage_path;
  save_notified_ids storage_path (notified_ids ∪ {[paper_id]}).

End Storage.

(** ** pdf.py *)
Module Pdf.

Definition get_pdf_url (arxiv_url : string) : string :=
  PyStr.replace "/abs/" "/pdf/" arxiv_url ++ ".pdf".

(** [except httpx.HTTPError] *)
Definition http_error (e : exn) : bool :=
  match e with
  | HTTPError => true
  | _ => false
  end.

Definition download_pdf `{Env} (paper_id pdf_url : string) : M (list Byte.byte) :=
  logger Info "downloading pdf" [("paper_id", FStr paper_id); ("url", FStr pdf_url)];;
  try_except
    (content ← call (httpx_get pdf_url);
     logger Info "downloaded pdf" [("paper_id", FStr paper_id); ("size_bytes", FInt (len content))];;
     mret content)
    http_error
    (λ e,
       logger Error "failed to download pdf"
         [("paper_id", FStr paper_id); ("url", FStr pdf_url); ("error", FExn e)];;
       raise e).

(** [range(n)] *)
Definition range (n : Z) : list Z := seqZ 0 n.

(** [pages[i]]: a negative index counts from the end. *)
Definition index {A} (pages : list A) (i : Z) : outcome A :=
  let j := if i <? 0 then len pages + i else i in
  if j <? 0 then Raise IndexError
  else match pages !! Z.to_nat j with
       | Some p => Return p
       | None => Raise IndexError
       end.

(** [for i in idx: writer.add_page(pages[i])]; [writer] is the list of the
    pages added so far. *)
Fixpoint add_pages {A} (pages : list A) (idx : list Z) (writer : list A) : outcome (list A) :=
  match idx with
  | [] => Return writer
  | i :: r => p ← index pages i; add_pages pages r (writer ++ [p])%list
  end.

(** The pages [extract_first_page] hands to the writer. *)
Definition extracted_pages {A} (pages : list A) (num_pages : Z) : outcome (list A) :=
  let pages_to_extract := Z.min num_pages (len pages) in
  add_pages pages (range pages_to_extract) [].

Definition extract_first_page `{Env} (pdf_content : list Byte.byte) (num_pages : Z) : M (list Byte.byte) :=
  pages ← lift (of_sum (pdf_pages pdf_content));
  writer ← lift (extracted_pages pages num_pages);
  logger Info "extracted pages from pdf"
    [("total_pages", FInt (len pages)); ("extracted_pages", FInt (Z.min num_pages (len pages)))];;
  mret (pdf_write writer).

Definition encode_pdf_base64 `{Env} (pdf_content : list Byte.byte) : string :=
  b64encode pdf_content.

End Pdf.

(** ** summarizer.py and notifier.py *)
Module Summarizer.

Definition summarize `{Env} (model_name prompt_template : string) (paper : Paper) (pdf_base64 : string)
  : M string :=
  try_except
    (prompt ← lift (of_sum (format_prompt prompt_template (title paper)));
     logger Info "requesting summary from gemini"
       [("paper_id", FStr (id paper)); ("model", FStr model_name)];;
     '(summary, (input_tokens, output_tokens, total_tokens)) ←
       call (gemini_generate model_name prompt pdf_base64);
     logger Info "generated summary"
       [("paper_id", FStr (id paper)); ("summary_length", FInt (Z.of_nat (String.length summary)));
        ("input_tokens", FInt input_tokens); ("output_tokens", FInt output_tokens);
        ("total_tokens", FInt total_tokens)];;
     mret (strip summary))
    any_exception
    (λ e,
       logger Error "failed to generate summary" [("paper_id", FStr (id paper)); ("error", FExn e)];;
       raise e).

End Summarizer.

Module Notifier.

Definition send_notification `{Env} (paper : Paper) (summary : string) : M unit :=
  try_except
    (call (smtp_send paper summary);;
     logger Info "sent email notification"
       [("paper_id", FStr (id paper)); ("paper_title", FStr (title paper)); ("recipient_count", FInt 1)])
    any_exception
    (λ e,
       logger Error "failed to send email" [("paper_id", FStr (id paper)); ("error", FExn e)];;
       raise e).

End Notifier.

(** ** config.py *)
Module Config.

Definition expand_rss_urls (v : list string) : list string :=
  (λ url, if PyStr.startswith "http://" url || PyStr.startswith "https://" url
          then url
          else "https://rss.arxiv.org/rss/" ++ url) <$> v.

(** [url.startswith(("http://", "https://"))] *)
Definition looks_like_url (url : string) : bool :=
  PyStr.startswith "http://" url || PyStr.startswith "https://" url.

Definition get_settings `{Env} : M Settings :=
  λ st, (st,
         match read_settings (world st) with
         | inl e => Raise e
         | inr s =>
             Return (MkSettings (expand_rss_urls (rss_urls s)) (gemini_model s) (gemini_prompt s)
                       (gemini_pdf_pages s) (smtp_host s) (smtp_port s) (storage_file s))
         end).

End Config.

(** ** main.py *)
Module Main.

(** [new_papers = [p for p in papers if p.id not in notified_ids]] *)
Fixpoint new_papers (papers : list Paper) (notified_ids : gset string) : list Paper :=
  match papers with
  | [] => []
  | p :: r =>
      if decide (id p ∈ notified_ids)
      then new_papers r notified_ids
      else p :: new_papers r notified_ids
  end.

(** [for paper in new_papers: notified_ids.add(paper.id)] *)
Fixpoint mark_all (new_papers : list Paper) (notified_ids : gset string) : gset string :=
  match new_papers with
  | [] => notified_ids
  | paper :: r => mark_all r (notified_ids ∪ {[id paper]})
  end.

(** [sorted(new_papers, key=lambda p: p.published, reverse=True)[:1]] *)
Definition latest (new_papers : list Paper) : list Paper :=
  take 1 (PySort.sorted_desc published new_papers).

Definition is_empty {A} (l : list A) : bool :=
  match l with
  | [] => true
  | _ => false
  end.

Definition first_run_detected : event :=
  Log Info "first run detected, processing only the latest paper but marking all as seen" [].

(** Lines 84 to 97: what is processed and what the ledger holds when the
    loop starts. *)
Definition plan `{Env} (is_first_run : bool) (new_papers : list Paper) (notified_ids : gset string)
  : M (list Paper * gset string) :=
  if is_first_run && negb (is_empty new_papers) then
    logger Info "first run detected, processing only the latest paper but marking all as seen" [];;
    mret (latest new_papers, mark_all new_papers notified_ids)
  else mret (new_papers, notified_ids).

(** Lines 104 to 116: the PDF is located, downloaded, cut and encoded, the
    summary is requested and the notification is sent. *)
Definition pipeline `{Env} (settings : Settings) (paper : Paper) : M unit :=
  let pdf_url := Pdf.get_pdf_url (link paper) in
  pdf_content ← Pdf.download_pdf (id paper) pdf_url;
  first_pages ← Pdf.extract_first_page pdf_content (gemini_pdf_pages settings);
  let pdf_base64 := Pdf.encode_pdf_base64 first_pages in
  summary ← Summarizer.summarize (gemini_model settings) (gemini_prompt settings) paper pdf_base64;
  Notifier.send_notification paper summary.

Definition processing (paper : Paper) : event :=
  Log Info "processing paper" [("paper_id", FStr (id paper)); ("title", FStr (title paper))].

Definition processed (paper : Paper) : event :=
  Log Info "successfully processed paper" [("paper_id", FStr (id paper))].

Definition failed (paper : Paper) (e : exn) : event :=
  Log Error "failed to process paper" [("paper_id", FStr (id paper)); ("error", FExn e)].

Definition emit `{Env} (ev : event) : M unit :=
  logger (ev_level ev) (ev_msg ev) (ev_fields ev).

(** The body of the loop of lines 100 to 130 for one paper. *)
Definition process_paper `{Env} (settings : Settings) (is_first_run : bool)
    (paper : Paper) (notified_ids : gset string) : M (gset string) :=
  try_except
    (emit (processing paper);;
     pipeline settings paper;;
     let notified_ids' := if is_first_run then notified_ids else notified_ids ∪ {[id paper]} in
     emit (processed paper);;
     mret notified_ids')
    any_exception
    (λ e, emit (failed paper e);; mret notified_ids).

Definition process_papers `{Env} (settings : Settings) (is_first_run : bool)
    (papers_to_process : list Paper) (notified_ids : gset string) : M (gset string) :=
  for_each papers_to_process (process_paper settings is_first_run) notified_ids.

Definition filtered (papers new_papers : list Paper) (is_first_run : bool) : event :=
  Log Info "filtered papers"
    [("total_papers", FInt (len papers)); ("new_papers", FInt (len new_papers));
     ("is_first_run", FBool is_first_run)].

(** Lines 132 to 139: the ledger is saved and the run is summed up. *)
Definition finish `{Env} (settings : Settings) (new_papers : list Paper) (notified_ids : gset string)
  : M unit :=
  Storage.save_notified_ids (storage_file settings) notified_ids;;
  logger Info "arxiv watcher completed"
    [("papers_processed", FInt (len new_papers));
     ("total_notified", FInt (Z.of_nat (size notified_ids)))].

(** What [main] does once the ledger is loaded and the feeds are fetched. *)
Definition run `{Env} (settings : Settings) (notified_ids : gset string) (papers : list Paper)
  : M unit :=
  let is_first_run := bool_decide (size notified_ids = 0%nat) in
  if is_empty papers then
    logger Info "no papers found in feeds" []
  else
    let new_papers := new_papers papers notified_ids in
    emit (filtered papers new_papers is_first_run);;
    '(papers_to_process, notified_ids) ← plan is_first_run new_papers notified_ids;
    notified_ids ← process_papers settings is_first_run papers_to_process notified_ids;
    finish settings new_papers notified_ids.

(** The start of the [try] block of [main]: the settings are read and the
    components are built. *)
Definition startup `{Env} : M Settings :=
  logger Info "starting arxiv watcher" [];;
  settings ← Config.get_settings;
  logger Info "loaded configuration" [("feed_count", FInt (len (rss_urls settings)))];;
  Storage.init (storage_file settings);;
  logger Info "initialized rss feed parser" [("feed_count", FInt (len (rss_urls settings)))];;
  logger Info "initialized paper summarizer" [("model", FStr (gemini_model settings))];;
  logger Info "initialized email notifier"
    [("smtp_host", FStr (smtp_host settings)); ("smtp_port", FInt (smtp_port settings));
     ("recipient_count", FInt 1)];;
  mret settings.

(** The [try] block of [main]. *)
Definition body `{Env} : M unit :=
  settings ← startup;
  notified_ids ← Storage.load_notified_ids (storage_file settings);
  papers ← Rss.fetch_papers (rss_urls settings);
  run settings notified_ids papers.

(** [main]: the value returned is the exit status of the process, 0 when
    [main] returns and 1 after [sys.exit(1)]. *)
Definition main `{Env} : M Z :=
  try_except
    (body;; mret 0)
    any_exception
    (λ e, logger Error "arxiv watcher failed" [("error", FExn e)];; mret 1).

End Main.

(** ** A concrete environment

    The outside world is a table of answers: what pydantic finds, what
    each feed URL serves, which PDF URLs can be downloaded, whether the
    SMTP server accepts mail.  Every PDF has three pages, the summary is
    the prompt, and the text helpers leave their argument as it is. *)
Module Sample.

Record outside : Type := MkOutside {
  env_settings : exn + Settings;
  feeds : string → exn + list Entry;
  pdf_available : string → bool;
  smtp_up : bool }.

Definition env : Env := {|
  World := outside;
  Page := nat;
  read_settings w := env_settings w;
  feedparser_parse url w := (w, feeds w url);
  httpx_get url w := (w, if pdf_available w url then inr [] else inl HTTPError);
  pdf_pages _ := inr [1%nat; 2%nat; 3%nat];
  pdf_write _ := [];
  b64encode _ := "";
  format_prompt template _ := inr template;
  gemini_generate _ prompt _ w := (w, inr (prompt, (0, 0, 0)));
  smtp_send _ _ w := (w, if smtp_up w then inr tt else inl (ExternalError "smtp"));
  re_sub_tags s := s;
  re_sub_arxiv_prefix s := s;
  strip s := s |}.

Definition settings : Settings :=
  MkSettings ["cs.AI"] "gemini-2.5-flash-lite" "Summarize" 20 "localhost" 587 "notified_papers.json".

Definition entry (entry_id link published : string) : Entry :=
  MkEntry (Some entry_id) (Some "A title") (Some link) None (Some published) None None None None.

Definition paper (paper_id link published : string) : Paper :=
  MkPaper paper_id "A title" "" link [] published [] None.

(** A world where every feed serves [entries], every PDF whose URL does
    not contain [missing] can be downloaded and mail goes out. *)
Definition world (entries : list Entry) : outside :=
  MkOutside (inr settings) (λ _, inr entries) (λ url, negb (PyStr.contains "missing" url)) true.

(** A world where no feed can be fetched. *)
Definition offline : outside :=
  MkOutside (inr settings) (λ _, inl (ExternalError "network")) (λ _, false) false.

Definition disk (contents : list (string * string)) : FS :=
  MkFS (list_to_map contents) ∅.

Definition start (w : outside) (d : FS) : @state env := @MkState env w d [].

Definition ledger_file : string := "notified_papers.json".

(** Two papers, the second announced a day after the first. *)
Definition paper_a : Paper := paper "2401.00001" "http://arxiv.org/abs/2401.00001" "2024-01-01T00:00:00Z".
Definition paper_b : Paper := paper "2401.00002" "http://arxiv.org/abs/2401.00002" "2024-01-02T00:00:00Z".

(** One paper listed twice, as two feeds would list it; the PDF behind the
    first link cannot be downloaded. *)
Definition twice : list Entry :=
  [ entry "http://arxiv.org/abs/2401.00002" "http://arxiv.org/abs/missing" "2024-01-02T00:00:00Z";
    entry "http://arxiv.org/abs/2401.00002" "http://arxiv.org/abs/2401.00002" "2024-01-02T00:00:00Z" ].

(** A run that finds [2401.00001] in its ledger and [twice] in its feed. *)
Definition second_run : @state env :=
  start (world twice) (disk [(ledger_file, Storage.ledger_text {["2401.00001"]})]).


(** A first run while the network is down. *)
Definition offline_run : @state env := start offline (disk []).

(** A paper whose PDF cannot be downloaded. *)
Definition paper_c : Paper := paper "2401.00003" "http://arxiv.org/abs/missing" "2024-01-03T00:00:00Z".


(** A world in which pydantic finds no valid settings. *)
Definition unconfigured : outside :=
  MkOutside (inl ValidationError) (λ _, inr []) (λ _, true) true.


(** Two feeds: the first cannot be fetched, the second serves [paper_a]
    and an entry without a title. *)
Definition two_feeds : outside :=
  MkOutside (inr settings)
    (λ url, if String.eqb url "https://rss.arxiv.org/rss/cs.AI"
            then inl (ExternalError "network")
            else inr [entry "http://arxiv.org/abs/2401.00001" "http://arxiv.org/abs/2401.00001"
                        "2024-01-01T00:00:00Z";
                      MkEntry (Some "http://arxiv.org/abs/2401.00009") None None None None None None
                        None None])
    (λ _, true) true.

End Sample.

Local Close Scope Z_scope.

(** * Strings *)

Lemma app_cons a p q : String a p ++ q = String a (p ++ q).
Proof. reflexivity. Qed.

Lemma app_nil q : "" ++ q = q.
Proof. reflexivity. Qed.

Lemma startswith_app p r : PyStr.startswith p (p ++ r) = true.
Proof. induction p as [|a p IH]; [done|]. rewrite app_cons. simpl. by rewrite Ascii.eqb_refl. Qed.

Lemma startswith_inv p s : PyStr.startswith p s = true → s = p ++ PyStr.drop (String.length p) s.
Proof.
  revert s. induction p as [|a p IH]; intros [|b s]; simpl; try done.
  destruct (Ascii.eqb a b) eqn:E; [|done].
  apply Ascii.eqb_eq in E as ->. intros Hp. rewrite app_cons. f_equal. by apply IH.
Qed.

Lemma startswith_prefix p q s :
  PyStr.startswith (p ++ q) s = true → PyStr.startswith p s = true.
Proof.
  revert s. induction p as [|a p IH]; intros [|b s]; rewrite ?app_cons; simpl; try done.
  destruct (Ascii.eqb a b); [apply IH|done].
Qed.

Lemma contains_tail sub c s : PyStr.contains sub (String c s) = false → PyStr.contains sub s = false.
Proof. simpl. intros [_ ?]%orb_false_iff. done. Qed.

Lemma contains_head sub s : PyStr.contains sub s = false → PyStr.startswith sub s = false.
Proof. destruct s; simpl; [by rewrite orb_false_r|]. by intros [? _]%orb_false_iff. Qed.

Lemma contains_drop sub n s : PyStr.contains sub s = false → PyStr.contains sub (PyStr.drop n s) = false.
Proof.
  revert s. induction n as [|n IH]; intros [|c s]; simpl; try done.
  intros [_ ?]%orb_false_iff. by apply IH.
Qed.

Lemma contains_prefix p q s :
  PyStr.contains p s = false → PyStr.contains (p ++ q) s = false.
Proof.
  induction s as [|c s IH].
  - simpl. rewrite !orb_false_r. intros Hp.
    destruct (PyStr.startswith (p ++ q) "") eqn:E; [|done].
    apply startswith_prefix in E. congruence.
  - intros Hc. pose proof (contains_head _ _ Hc) as Hh.
    apply contains_tail in Hc. change (PyStr.contains (p ++ q) (String c s))
      with (PyStr.startswith (p ++ q) (String c s) || PyStr.contains (p ++ q) s).
    rewrite (IH Hc), orb_false_r.
    destruct (PyStr.startswith (p ++ q) (String c s)) eqn:E; [|done].
    apply startswith_prefix in E. congruence.
Qed.

Lemma drop_length n s : (String.length (PyStr.drop n s) ≤ String.length s)%nat.
Proof.
  revert s. induction n as [|n IH]; intros [|c s]; simpl; try lia.
  specialize (IH s). lia.
Qed.

Lemma after_last_none sep s : PyStr.contains sep s = false → PyStr.after_last sep s = None.
Proof.
  induction s as [|c s IH]; intros Hc.
  - simpl in *. rewrite orb_false_r in Hc. by rewrite Hc.
  - pose proof (contains_head _ _ Hc) as Hh. apply contains_tail in Hc.
    cbn [PyStr.after_last]. by rewrite (IH Hc), Hh.
Qed.

Lemma after_last_cons sep c s :
  PyStr.after_last sep (String c s) =
    match PyStr.after_last sep s with
    | Some t => Some t
    | None =>
        if PyStr.startswith sep (String c s)
        then Some (PyStr.drop (String.length sep) (String c s))
        else None
    end.
Proof. reflexivity. Qed.

Lemma after_last_abs r :
  PyStr.startswith "abs/" r = false →
  PyStr.after_last "/abs/" ("/abs/" ++ r) = Some (default r (PyStr.after_last "/abs/" r)).
Proof.
  intros Hov.
  change ("/abs/" ++ r) with (String "/" (String "a" (String "b" (String "s" (String "/" r))))).
  rewrite !after_last_cons.
  destruct (PyStr.after_last "/abs/" r); [done|].
  change (PyStr.startswith "/abs/" (String "/" r)) with (PyStr.startswith "abs/" r).
  rewrite Hov. reflexivity.
Qed.

Lemma split_go_skip sep k s : PyStr.split_go sep k s = PyStr.split_go sep 0 (PyStr.drop k s).
Proof.
  revert k. induction s as [|c s IH]; intros [|k]; try done. simpl. apply IH.
Qed.

Lemma split_unsplit sep s p :
  PyStr.split_go sep 0 s = (p, []) → p = s.
Proof.
  revert p. induction s as [|c s IH]; intros p; simpl.
  - by intros [= <-].
  - destruct (PyStr.startswith sep (String c s)).
    + destruct (PyStr.split_go sep (String.length sep - 1) s); intros; simplify_eq.
    + destruct (PyStr.split_go sep 0 s) as [p' ps'] eqn:E. intros [= <- ->].
      f_equal. by apply IH.
Qed.

Lemma tail_piece_match sep c s :
  PyStr.startswith sep (String c s) = true →
  tail_piece (PyStr.split_go sep 0 (String c s)) =
    let r := PyStr.drop (String.length sep - 1) s in
    Some (default r (tail_piece (PyStr.split_go sep 0 r))).
Proof.
  intros Hs. cbn [PyStr.split_go]. rewrite Hs, split_go_skip.
  destruct (PyStr.split_go sep 0 _) as [p ps] eqn:E. unfold tail_piece. cbn [snd].
  destruct ps as [|q ps].
  - apply split_unsplit in E. by subst p.
  - rewrite last_cons. destruct (last (q :: ps)) eqn:E2; [done|]. by apply last_None in E2.
Qed.

Lemma tail_piece_step sep c s :
  PyStr.startswith sep (String c s) = false →
  tail_piece (PyStr.split_go sep 0 (String c s)) = tail_piece (PyStr.split_go sep 0 s).
Proof.
  intros Hs. cbn [PyStr.split_go]. rewrite Hs.
  by destruct (PyStr.split_go sep 0 s).
Qed.

Lemma tail_piece_after_last n s :
  (String.length s ≤ n)%nat →
  PyStr.contains "/abs/abs/" s = false →
  tail_piece (PyStr.split_go "/abs/" 0 s) = PyStr.after_last "/abs/" s.
Proof.
  revert s. induction n as [|n IH]; intros s Hn Hc.
  { destruct s; [done|simpl in Hn; lia]. }
  destruct s as [|c s]; [done|].
  destruct (PyStr.startswith "/abs/" (String c s)) eqn:Hs.
  - rewrite tail_piece_match by done.
    apply startswith_inv in Hs. change (String.length "/abs/") with 5%nat in *.
    set (r := PyStr.drop 5 (String c s)) in *.
    change (PyStr.drop (5 - 1) s) with r. cbv zeta.
    assert (Hr : PyStr.contains "/abs/abs/" r = false) by by apply contains_drop.
    assert (Hlen : (String.length r ≤ n)%nat).
    { pose proof (drop_length 4 s) as Hd. change (PyStr.drop 4 s) with r in Hd.
      simpl in Hn. lia. }
    rewrite (IH r Hlen Hr).
    assert (Hov : PyStr.startswith "abs/" r = false).
    { apply contains_head in Hc. rewrite Hs in Hc. exact Hc. }
    rewrite Hs. symmetry. by apply after_last_abs.
  - rewrite tail_piece_step by done.
    rewrite IH; [|simpl in Hn; lia|by eapply contains_tail].
    cbn [PyStr.after_last]. rewrite Hs. by destruct (PyStr.after_last "/abs/" s).
Qed.

Lemma split_last sep s :
  PyStr.last_item (PyStr.split sep s) =
    Return (default s (tail_piece (PyStr.split_go sep 0 s))).
Proof.
  unfold PyStr.split, PyStr.last_item, tail_piece.
  destruct (PyStr.split_go sep 0 s) as [p ps] eqn:E. cbn [snd].
  destruct ps as [|q ps].
  - apply split_unsplit in E. by subst p.
  - rewrite last_cons. destruct (last (q :: ps)) eqn:E2; [done|]. by apply last_None in E2.
Qed.

(** Claim C8, as amended.  When no two occurrences of [/abs/] overlap in the
    entry's id (the id does not contain [/abs/abs/]), the paper identifier
    is the text after the last occurrence of [/abs/] if there is one, and
    the id itself otherwise. *)
Theorem paper_id_after_last_abs (entry_id : string) :
  PyStr.contains "/abs/abs/" entry_id = false →
  Rss.paper_id entry_id = Return (default entry_id (PyStr.after_last "/abs/" entry_id)).
Proof.
  intros Hov. unfold Rss.paper_id.
  destruct (PyStr.contains "abs" entry_id) eqn:Habs.
  - rewrite split_last. by rewrite (tail_piece_after_last (String.length entry_id)).
  - rewrite after_last_none; [done|].
    apply (contains_prefix "/abs" "/"). 
    clear Hov. induction entry_id as [|c s IH]; [done|].
    pose proof (contains_head _ _ Habs) as Hh. apply contains_tail in Habs.
    change (PyStr.contains "/abs" (String c s))
      with (PyStr.startswith "/abs" (String c s) || PyStr.contains "/abs" s).
    rewrite (IH Habs), orb_false_r.
    destruct (PyStr.startswith "/abs" (String c s)) eqn:E; [|done].
    change (PyStr.startswith "/abs" (String c s))
      with (if Ascii.eqb "/" c then PyStr.startswith "abs" s else false) in E.
    destruct (Ascii.eqb "/" c); [|done].
    apply contains_head in Habs. congruence.
Qed.

Lemma paper_id_after_last_abs_witness :
  Rss.paper_id "http://arxiv.org/abs/2401.12345v2" = Return "2401.12345v2".
Proof. exact (paper_id_after_last_abs "http://arxiv.org/abs/2401.12345v2" eq_refl). Defined.

Lemma paper_id_overlap_counterexample :
  PyStr.contains "/abs/" "http://arxiv.org/abs/abs/2401.1" = true ∧
  PyStr.after_last "/abs/" "http://arxiv.org/abs/abs/2401.1" = Some "2401.1" ∧
  Rss.paper_id "http://arxiv.org/abs/abs/2401.1" = Return "abs/2401.1" ∧
  Rss.paper_id "http://arxiv.org/abs/abs/2401.1" ≠ Return "2401.1".
Proof. split_and!; [reflexivity..|]. vm_compute. discriminate. Qed.

Local Open Scope Z_scope.

(** * pdf.py: the pages kept *)

Lemma index_in_range {A} (pages : list A) (k : nat) p :
  pages !! k = Some p → Pdf.index pages (Z.of_nat k) = Return p.
Proof.
  intros Hk. unfold Pdf.index.
  destruct (Z.ltb_spec (Z.of_nat k) 0) as [?|_]; [lia|].
  destruct (Z.ltb_spec (Z.of_nat k) 0) as [?|_]; [lia|].
  by rewrite Nat2Z.id, Hk.
Qed.

Lemma add_pages_range {A} (pages : list A) (n k : nat) (writer : list A) :
  (k + n ≤ length pages)%nat →
  Pdf.add_pages pages (seqZ (Z.of_nat k) (Z.of_nat n)) writer
  = Return (writer ++ take n (drop k pages))%list.
Proof.
  revert k writer. induction n as [|n IH]; intros k writer Hk.
  - simpl. by rewrite take_0, app_nil_r.
  - rewrite seqZ_cons by lia. cbn [Pdf.add_pages].
    destruct (lookup_lt_is_Some_2 pages k) as [p Hp]; [lia|].
    rewrite (index_in_range _ _ _ Hp). cbn.
    replace (Z.succ (Z.of_nat k)) with (Z.of_nat (S k)) by lia.
    replace (Z.pred (Z.of_nat (S n))) with (Z.of_nat n) by lia.
    rewrite IH by lia. f_equal.
    rewrite (drop_S _ _ _ Hp). cbn [take]. by rewrite <- app_assoc.
Qed.

Lemma extracted_pages_take {A} (pages : list A) (num_pages : Z) :
  Pdf.extracted_pages pages num_pages = Return (take (Z.to_nat num_pages) pages).
Proof.
  unfold Pdf.extracted_pages, Pdf.range, len.
  destruct (Z.le_gt_cases (Z.min num_pages (Z.of_nat (length pages))) 0) as [Hn|Hn].
  - rewrite seqZ_nil by lia. cbn.
    destruct (Z.le_gt_cases num_pages 0).
    + by replace (Z.to_nat num_pages) with 0%nat by lia.
    + assert (length pages = 0%nat) as ->%length_zero_iff_nil by lia. by rewrite take_nil.
  - pose proof (add_pages_range pages (Z.to_nat (Z.min num_pages (Z.of_nat (length pages)))) 0 []) as H.
    rewrite Z2Nat.id in H by lia. change (Z.of_nat 0) with 0 in H. rewrite H by lia.
    cbn. f_equal. rewrite drop_0.
    destruct (Z.le_gt_cases num_pages (Z.of_nat (length pages))).
    + by rewrite Z.min_l by lia.
    + rewrite Z.min_r, Nat2Z.id by lia. rewrite !take_ge by lia. done.
Qed.



Local Close Scope Z_scope.
Import Json.


(** * The decoder reads back what the encoder writes *)

Lemma str_app_assoc (a b c : string) : (a ++ b) ++ c = a ++ (b ++ c).
Proof. induction a as [|x a IH]; [done|]. rewrite !app_cons. by f_equal. Qed.

Lemma str_app_length (a b : string) :
  String.length (a ++ b) = (String.length a + String.length b)%nat.
Proof. induction a as [|x a IH]; [done|]. rewrite app_cons. simpl. by rewrite IH. Qed.

Lemma scan_escape_char c t :
  scan_string (escape_char c ++ t) = pmap (String c) (scan_string t).
Proof.
  destruct c as [[] [] [] [] [] [] [] []]; reflexivity.
Qed.

Lemma scan_escape s rest :
  scan_string (escape s ++ String quote rest) = POk s rest.
Proof.
  induction s as [|c s IH].
  - reflexivity.
  - cbn [escape]. rewrite str_app_assoc, scan_escape_char, IH. reflexivity.
Qed.

Lemma encode_str_app s rest :
  encode_str s ++ rest = String quote (escape s ++ String quote rest).
Proof. unfold encode_str. rewrite app_cons, str_app_assoc. reflexivity. Qed.

Lemma scan_value_str fuel s rest :
  scan_value (S fuel) (encode_str s ++ rest) = POk (JStr s) rest.
Proof. rewrite encode_str_app. cbn [scan_value]. change (Ascii.eqb quote quote) with true.
  cbv iota. by rewrite scan_escape. Qed.

Lemma skip_ws_spaces n t : skip_ws (spaces n ++ t) = skip_ws t.
Proof. induction n as [|n IH]; [done|]. cbn [spaces]. by rewrite app_cons. Qed.

Lemma skip_ws_newline_indent k t : skip_ws (newline_indent k ++ t) = skip_ws t.
Proof. unfold newline_indent. rewrite app_cons. cbn [skip_ws]. apply skip_ws_spaces. Qed.

Lemma skip_ws_encode_str s t : skip_ws (encode_str s ++ t) = encode_str s ++ t.
Proof. by rewrite encode_str_app. Qed.

Lemma scan_items_eq fuel s :
  scan_items (S fuel) s =
    match scan_value fuel s with
    | POk v rest =>
        match skip_ws rest with
        | String "]" rest' => POk [v] rest'
        | String "," rest' => pmap (cons v) (scan_items fuel (skip_ws rest'))
        | _ => PErr
        end
    | PErr => PErr
    | PNoModel => PNoModel
    end.
Proof. reflexivity. Qed.

Lemma scan_items_strs l k j rest fuel :
  l ≠ [] → (length l < fuel)%nat →
  scan_items fuel
    (join ("," ++ newline_indent k) (encode_str <$> l) ++ newline_indent j ++ String "]" rest)
  = POk (JStr <$> l) rest.
Proof.
  revert fuel. induction l as [|x l IH]; intros fuel Hne Hfuel; [done|].
  destruct fuel as [|fuel]; [simpl in Hfuel; lia|].
  destruct fuel as [|fuel]; [simpl in Hfuel; lia|].
  destruct l as [|y l].
  - cbn [fmap list_fmap join]. rewrite scan_items_eq, scan_value_str.
    rewrite skip_ws_newline_indent. reflexivity.
  - change (join ("," ++ newline_indent k) (encode_str <$> x :: y :: l))
      with (encode_str x ++ ("," ++ newline_indent k) ++ join ("," ++ newline_indent k) (encode_str <$> y :: l)).
    rewrite !str_app_assoc. rewrite scan_items_eq, scan_value_str.
    rewrite app_cons, app_nil. cbn [skip_ws is_ws]. cbv beta iota.
    change (is_ws ",") with false. cbv iota.
    rewrite skip_ws_newline_indent.
    change (encode_str <$> y :: l) with (encode_str y :: (encode_str <$> l)).
    assert (Hq : ∀ t, skip_ws (join ("," ++ newline_indent k) (encode_str y :: (encode_str <$> l)) ++ t)
                 = join ("," ++ newline_indent k) (encode_str y :: (encode_str <$> l)) ++ t).
    { intros t. destruct l; cbn [fmap list_fmap join]; rewrite ?str_app_assoc; apply skip_ws_encode_str. }
    rewrite Hq.
    change (encode_str y :: (encode_str <$> l)) with (encode_str <$> y :: l).
    rewrite IH; [reflexivity|done|simpl in *; lia].
Qed.

Lemma map_dumps_strs lvl l : List.map (dumps lvl) (JStr <$> l) = encode_str <$> l.
Proof. induction l as [|x l IH]; [done|]. cbn. by rewrite <- IH. Qed.

(** The text of an array of strings at nesting level [lvl]. *)
Lemma dumps_strs lvl l :
  dumps lvl (JArr (JStr <$> l)) =
    match l with
    | [] => "[]"
    | _ => "[" ++ newline_indent (S lvl)
               ++ join ("," ++ newline_indent (S lvl)) (encode_str <$> l)
               ++ newline_indent lvl ++ "]"
    end.
Proof.
  destruct l as [|x l]; [done|].
  rewrite <- (map_dumps_strs (S lvl)). reflexivity.
Qed.

Lemma scan_value_array fuel s1 :
  scan_value (S fuel) (String "[" s1) =
    match skip_ws s1 with
    | String "]" rest => POk (JArr []) rest
    | s2 => pmap JArr (scan_items fuel s2)
    end.
Proof. reflexivity. Qed.

Lemma join_encode_head sep l t :
  l ≠ [] → ∃ t', join sep (encode_str <$> l) ++ t = String quote t'.
Proof.
  destruct l as [|x [|y l]]; [done|..]; intros _; cbn [fmap list_fmap join];
    rewrite ?str_app_assoc, encode_str_app; eauto.
Qed.

Lemma scan_value_strs lvl l rest fuel :
  (S (length l) < fuel)%nat →
  scan_value fuel (dumps lvl (JArr (JStr <$> l)) ++ rest) = POk (JArr (JStr <$> l)) rest.
Proof.
  intros Hfuel. rewrite dumps_strs.
  destruct fuel as [|fuel]; [lia|].
  destruct l as [|x l]; [reflexivity|].
  rewrite !str_app_assoc, app_cons, app_nil, scan_value_array.
  change ("]" ++ rest) with (String "]" rest).
  rewrite skip_ws_newline_indent.
  destruct (join_encode_head ("," ++ newline_indent (S lvl)) (x :: l)
              (newline_indent lvl ++ String "]" rest)) as [t' Ht']; [done|].
  rewrite Ht'. transitivity (pmap JArr (scan_items fuel (String quote t'))); [reflexivity|].
  rewrite <- Ht'.
  rewrite (scan_items_strs (x :: l)); [reflexivity|done|simpl in *; lia].
Qed.

Lemma scan_value_object fuel s1 :
  scan_value (S fuel) (String "{" s1) =
    match skip_ws s1 with
    | String "}" rest => POk (JObj []) rest
    | s2 => pmap JObj (scan_members fuel s2)
    end.
Proof. reflexivity. Qed.

Lemma scan_members_eq fuel s1 :
  scan_members (S fuel) (String quote s1) =
    match scan_string s1 with
    | POk k rest =>
        match skip_ws rest with
        | String ":" rest1 =>
            match scan_value fuel (skip_ws rest1) with
            | POk v rest2 =>
                match skip_ws rest2 with
                | String "}" rest' => POk [(k, v)] rest'
                | String "," rest' => pmap (cons (k, v)) (scan_members fuel (skip_ws rest'))
                | _ => PErr
                end
            | PErr => PErr
            | PNoModel => PNoModel
            end
        | _ => PErr
        end
    | PErr => PErr
    | PNoModel => PNoModel
    end.
Proof. reflexivity. Qed.

Lemma dumps_strs_head lvl l t :
  ∃ t', dumps lvl (JArr (JStr <$> l)) ++ t = String "[" t'.
Proof. rewrite dumps_strs. destruct l; rewrite app_cons; eauto. Qed.

Lemma scan_value_ledger key l rest fuel :
  (3 + length l < fuel)%nat →
  scan_value fuel (dumps 0 (JObj [(key, JArr (JStr <$> l))]) ++ rest)
  = POk (JObj [(key, JArr (JStr <$> l))]) rest.
Proof.
  intros Hfuel.
  change (dumps 0 (JObj [(key, JArr (JStr <$> l))])) with
    ("{" ++ newline_indent 1 ++ (encode_str key ++ ": " ++ dumps 1 (JArr (JStr <$> l)))
         ++ newline_indent 0 ++ "}").
  destruct fuel as [|[|fuel]]; [lia..|].
  rewrite !str_app_assoc, app_cons, app_nil, scan_value_object, skip_ws_newline_indent.
  rewrite encode_str_app.
  transitivity (pmap JObj (scan_members (S fuel)
    (String quote (escape key ++ String quote (": " ++ dumps 1 (JArr (JStr <$> l)) ++
       newline_indent 0 ++ "}" ++ rest))))); [reflexivity|].
  rewrite scan_members_eq, scan_escape.
  change (skip_ws (": " ++ ?t)) with (String ":" (String " " t)).
  destruct (dumps_strs_head 1 l (newline_indent 0 ++ "}" ++ rest)) as [t' Ht'].
  transitivity (pmap JObj
    match scan_value fuel (skip_ws (dumps 1 (JArr (JStr <$> l)) ++ newline_indent 0 ++ "}" ++ rest)) with
    | POk v rest2 =>
        match skip_ws rest2 with
        | String "}" rest' => POk [(key, v)] rest'
        | String "," rest' => pmap (cons (key, v)) (scan_members fuel (skip_ws rest'))
        | _ => PErr
        end
    | PErr => PErr
    | PNoModel => PNoModel
    end); [reflexivity|].
  rewrite Ht'. change (skip_ws (String "[" t')) with (String "[" t'). rewrite <- Ht'.
  rewrite scan_value_strs by lia.
  rewrite skip_ws_newline_indent. reflexivity.
Qed.

Lemma join_encode_length sep l :
  (length l ≤ String.length (join sep (encode_str <$> l)))%nat.
Proof.
  induction l as [|x [|y l] IH]; [simpl; lia|..].
  - cbn [fmap list_fmap join]. unfold encode_str. simpl. lia.
  - change (join sep (encode_str <$> x :: y :: l))
      with (encode_str x ++ sep ++ join sep (encode_str <$> y :: l)).
    rewrite !str_app_length. unfold encode_str at 1. cbn [String.length length] in *. lia.
Qed.

Lemma dumps_strs_length lvl l :
  (length l ≤ String.length (dumps lvl (JArr (JStr <$> l))))%nat.
Proof.
  rewrite dumps_strs. destruct l as [|x l]; [simpl; lia|].
  rewrite !str_app_length. pose proof (join_encode_length ("," ++ newline_indent (S lvl)) (x :: l)). lia.
Qed.

(** [json.loads] gives back the object [json.dumps] was given. *)
Lemma loads_dumps_ledger key l :
  loads (dumps 0 (JObj [(key, JArr (JStr <$> l))])) = Return (JObj [(key, JArr (JStr <$> l))]).
Proof.
  unfold loads.
  pose proof (scan_value_ledger key l "") as H.
  assert (Hh : ∃ t', dumps 0 (JObj [(key, JArr (JStr <$> l))]) = String "{" t') by (eexists; reflexivity).
  destruct Hh as [t' Ht'].
  assert (Happ : ∀ s : string, s ++ "" = s).
  { intros s; induction s as [|c s IH]; [done|]. rewrite app_cons. by f_equal. }
  rewrite Happ in H.
  assert (Hlen : (length l + 2 ≤ String.length (dumps 0 (JObj [(key, JArr (JStr <$> l))])))%nat).
  { change (dumps 0 (JObj [(key, JArr (JStr <$> l))])) with
      ("{" ++ newline_indent 1 ++ (encode_str key ++ ": " ++ dumps 1 (JArr (JStr <$> l)))
         ++ newline_indent 0 ++ "}").
    rewrite !str_app_length. pose proof (dumps_strs_length 1 l).
    change (String.length "{") with 1%nat. change (String.length "}") with 1%nat. lia. }
  rewrite Ht' at 2. change (skip_ws (String "{" t')) with (String "{" t'). rewrite <- Ht'.
  rewrite H by lia. reflexivity.
Qed.



(** * Links, identifiers and locators *)

Lemma replace_go_skip old new k s :
  PyStr.replace_go old new k s = PyStr.replace_go old new 0 (PyStr.drop k s).
Proof.
  revert k. induction s as [|c s IH]; intros [|k]; try done. simpl. apply IH.
Qed.

Lemma replace_go_none old new s :
  PyStr.contains old s = false → PyStr.replace_go old new 0 s = s.
Proof.
  induction s as [|c s IH]; [done|]. intros Hc.
  pose proof (contains_head _ _ Hc) as Hh. apply contains_tail in Hc.
  cbn [PyStr.replace_go]. rewrite Hh. f_equal. by apply IH.
Qed.

Lemma split_go_none sep s :
  PyStr.contains sep s = false → PyStr.split_go sep 0 s = (s, []).
Proof.
  induction s as [|c s IH]; [done|]. intros Hc.
  pose proof (contains_head _ _ Hc) as Hh. apply contains_tail in Hc.
  cbn [PyStr.split_go]. rewrite Hh. by rewrite (IH Hc).
Qed.

Lemma contains_app sub a b :
  PyStr.contains sub b = true → PyStr.contains sub (a ++ b) = true.
Proof.
  intros Hb. induction a as [|c a IH]; [done|].
  rewrite app_cons.
  change (PyStr.contains sub (String c (a ++ b)))
    with (PyStr.startswith sub (String c (a ++ b)) || PyStr.contains sub (a ++ b)).
  by rewrite IH, orb_true_r.
Qed.

(** An occurrence of [/abs/] that starts inside [b] and reaches into the
    [/abs/] that follows it starts with [/abs] inside [b]. *)
Lemma startswith_abs_boundary b r :
  PyStr.startswith "/abs/" (b ++ "/abs/" ++ r) = true →
  b = "" ∨ PyStr.startswith "/abs" b = true.
Proof.
  change ("/abs/" ++ r) with (String "/" (String "a" (String "b" (String "s" (String "/" r))))).
  destruct b as [|c1 [|c2 [|c3 [|c4 b]]]]; [by left|..]; rewrite ?app_cons, ?app_nil;
    cbn [PyStr.startswith]; intros Hs; right; revert Hs;
    repeat match goal with |- context [Ascii.eqb ?a ?b] => is_var b; destruct (Ascii.eqb a b) end;
    done.
Qed.

Lemma startswith_abs_inside b r :
  PyStr.contains "/abs" b = false → b ≠ "" →
  PyStr.startswith "/abs/" (b ++ "/abs/" ++ r) = false.
Proof.
  intros Hc Hne. destruct (PyStr.startswith "/abs/" (b ++ "/abs/" ++ r)) eqn:E; [|done].
  apply startswith_abs_boundary in E as [?|E]; [done|].
  apply contains_head in Hc. congruence.
Qed.

Lemma replace_abs_link base pid :
  PyStr.contains "/abs" base = false →
  PyStr.replace "/abs/" "/pdf/" (base ++ "/abs/" ++ pid)
  = base ++ "/pdf/" ++ PyStr.replace "/abs/" "/pdf/" pid.
Proof.
  unfold PyStr.replace. induction base as [|c b IH]; intros Hc.
  - rewrite !app_nil.
    change ("/abs/" ++ pid) with (String "/" (String "a" (String "b" (String "s" (String "/" pid))))).
    cbn [PyStr.replace_go PyStr.startswith]. rewrite !Ascii.eqb_refl.
    change (String.length "/abs/" - 1) with 4. by rewrite replace_go_skip.
  - pose proof (startswith_abs_inside (String c b) pid Hc) as Hs.
    rewrite !app_cons in *. cbn [PyStr.replace_go]. rewrite Hs by done.
    f_equal. apply IH. by eapply contains_tail.
Qed.

Lemma split_abs_link base pid :
  PyStr.contains "/abs" base = false →
  PyStr.contains "/abs/" pid = false →
  tail_piece (PyStr.split_go "/abs/" 0 (base ++ "/abs/" ++ pid)) = Some pid.
Proof.
  intros Hc Hp. induction base as [|c b IH].
  - rewrite app_nil.
    change ("/abs/" ++ pid) with (String "/" (String "a" (String "b" (String "s" (String "/" pid))))).
    rewrite tail_piece_match by reflexivity.
    change (PyStr.drop (String.length "/abs/" - 1) (String "a" (String "b" (String "s" (String "/" pid)))))
      with pid.
    cbv zeta. by rewrite (split_go_none _ _ Hp).
  - pose proof (startswith_abs_inside (String c b) pid Hc) as Hs.
    rewrite !app_cons in *. rewrite tail_piece_step by (by apply Hs).
    apply IH. by eapply contains_tail.
Qed.

(** Property X5.  For an arXiv entry whose id and link are
    [base/abs/pid], where [/abs] does not occur in [base] and [/abs/] does
    not occur in [pid], the paper's id is [pid] and the PDF is fetched
    from [base/pdf/pid.pdf]. *)
Theorem pdf_url_of_arxiv_entry (base pid : string) :
  PyStr.contains "/abs" base = false →
  PyStr.contains "/abs/" pid = false →
  Rss.paper_id (base ++ "/abs/" ++ pid) = Return pid ∧
  Pdf.get_pdf_url (base ++ "/abs/" ++ pid) = base ++ "/pdf/" ++ pid ++ ".pdf".
Proof.
  intros Hb Hp. split.
  - unfold Rss.paper_id. rewrite (contains_app "abs" base ("/abs/" ++ pid)) by reflexivity.
    by rewrite split_last, split_abs_link.
  - unfold Pdf.get_pdf_url. rewrite replace_abs_link by done.
    unfold PyStr.replace. rewrite replace_go_none by done.
    by rewrite !str_app_assoc.
Qed.

Lemma pdf_url_of_arxiv_entry_witness :
  Rss.paper_id "http://arxiv.org/abs/2401.12345" = Return "2401.12345" ∧
  Pdf.get_pdf_url "http://arxiv.org/abs/2401.12345" = "http://arxiv.org/pdf/2401.12345.pdf".
Proof. exact (pdf_url_of_arxiv_entry "http://arxiv.org" "2401.12345" eq_refl eq_refl). Defined.

(** Property X6.  A link in which [/abs/] does not occur is kept as it
    is, and [.pdf] is put after it whatever the link ends with. *)
Theorem get_pdf_url_without_abs (arxiv_url : string) :
  PyStr.contains "/abs/" arxiv_url = false →
  Pdf.get_pdf_url arxiv_url = arxiv_url ++ ".pdf".
Proof. intros Hc. unfold Pdf.get_pdf_url, PyStr.replace. by rewrite replace_go_none. Qed.

Lemma get_pdf_url_without_abs_witness :
  Pdf.get_pdf_url "http://arxiv.org/pdf/2401.12345.pdf" = "http://arxiv.org/pdf/2401.12345.pdf.pdf".
Proof. exact (get_pdf_url_without_abs "http://arxiv.org/pdf/2401.12345.pdf" eq_refl). Defined.

Lemma expand_one_looks_like_url url :
  Config.looks_like_url
    (if PyStr.startswith "http://" url || PyStr.startswith "https://" url
     then url else "https://rss.arxiv.org/rss/" ++ url) = true.
Proof.
  destruct (PyStr.startswith "http://" url || PyStr.startswith "https://" url) eqn:E; [done|].
  reflexivity.
Qed.

Lemma expand_rss_urls_looks_like_url v :
  Forall (λ url, Config.looks_like_url url = true) (Config.expand_rss_urls v).
Proof.
  unfold Config.expand_rss_urls. apply Forall_fmap, Forall_forall. intros url _.
  apply expand_one_looks_like_url.
Qed.

Lemma expand_rss_urls_fixed v :
  Forall (λ url, Config.looks_like_url url = true) v → Config.expand_rss_urls v = v.
Proof.
  unfold Config.expand_rss_urls. induction 1 as [|url v Hurl _ IH]; [done|].
  cbn [fmap list_fmap]. unfold Config.looks_like_url in Hurl. rewrite Hurl. f_equal. exact IH.
Qed.

(** Property X4.  [expand_rss_urls] keeps the number and the order of the
    locators; every locator it returns starts with [http://] or
    [https://]; a name that does not is put after
    [https://rss.arxiv.org/rss/]; a list of URLs is returned as it is, so
    expanding twice is expanding once; and the feeds in the settings that
    [get_settings] returns are all URLs. *)
Theorem expand_rss_urls_idempotent `{Env} (v : list string) :
  length (Config.expand_rss_urls v) = length v ∧
  Forall (λ url, Config.looks_like_url url = true) (Config.expand_rss_urls v) ∧
  (∀ i name, v !! i = Some name → Config.looks_like_url name = false →
     Config.expand_rss_urls v !! i = Some ("https://rss.arxiv.org/rss/" ++ name)) ∧
  (Forall (λ url, Config.looks_like_url url = true) v → Config.expand_rss_urls v = v) ∧
  Config.expand_rss_urls (Config.expand_rss_urls v) = Config.expand_rss_urls v ∧
  (∀ st st' settings,
     Config.get_settings st = (st', Return settings) →
     Forall (λ url, Config.looks_like_url url = true) (rss_urls settings)).
Proof.
  split_and!.
  - unfold Config.expand_rss_urls. apply length_fmap.
  - apply expand_rss_urls_looks_like_url.
  - intros i name Hi Hname. unfold Config.expand_rss_urls. rewrite list_lookup_fmap, Hi.
    unfold Config.looks_like_url in Hname. unfold fmap, option_fmap, option_map.
    by rewrite Hname.
  - apply expand_rss_urls_fixed.
  - apply expand_rss_urls_fixed, expand_rss_urls_looks_like_url.
  - intros st st' settings. unfold Config.get_settings.
    destruct (read_settings (world st)) as [e|s]; [done|]. intros [= _ <-]. cbn.
    apply expand_rss_urls_looks_like_url.
Qed.


(** * storage.py *)

Lemma sorted_set_perm (ids0 : gset string) : PySort.sorted_set ids0 ≡ₚ elements ids0.
Proof. apply merge_sort_Permutation. Qed.



Lemma sorted_set_to_set (ids0 : gset string) : list_to_set (PySort.sorted_set ids0) = ids0.
Proof.
  apply set_eq. intros x. rewrite elem_of_list_to_set, sorted_set_perm. apply elem_of_elements.
Qed.

Lemma strs_fmap l : strs (JStr <$> l) = Some l.
Proof. induction l as [|x l IH]; [done|]. cbn. by rewrite IH. Qed.

Lemma hashable_fmap l : forallb hashable (JStr <$> l) = true.
Proof. induction l as [|x l IH]; [done|]. cbn. done. Qed.

Lemma to_set_strs l : to_set (JArr (JStr <$> l)) = Return (list_to_set l).
Proof. unfold to_set. by rewrite hashable_fmap, strs_fmap. Qed.

Section storage.
Context `{Env}.

Lemma save_ok storage_path ids0 st :
  storage_path ∉ denied (fs st) →
  Storage.save_notified_ids storage_path ids0 st =
    (logged (written st storage_path (Storage.ledger_text ids0))
       (Log Info "saved notified paper ids" [("count", FInt (Z.of_nat (size ids0)))]),
     Return tt).
Proof.
  intros Hd. unfold Storage.save_notified_ids, try_except, mbind, M_bind, bind, Storage.write_text.
  rewrite decide_False by done. reflexivity.
Qed.

Lemma save_denied storage_path ids0 st :
  storage_path ∈ denied (fs st) →
  Storage.save_notified_ids storage_path ids0 st =
    (logged st (Log Error "failed to save storage file"
                  [("error", FExn OSError); ("path", FStr storage_path)]),
     Raise OSError).
Proof.
  intros Hd. unfold Storage.save_notified_ids, try_except, mbind, M_bind, bind, Storage.write_text.
  rewrite decide_True by done. reflexivity.
Qed.

Lemma load_missing storage_path st :
  files (fs st) !! storage_path = None →
  Storage.load_notified_ids storage_path st =
    (logged st (Log Info "no existing storage file found, starting fresh" []), Return ∅).
Proof.
  intros Hf. unfold Storage.load_notified_ids, mbind, M_bind, bind, Storage.path_exists.
  rewrite Hf. rewrite bool_decide_eq_false_2 by (by intros [? ?]). reflexivity.
Qed.

Lemma load_unreadable storage_path text st :
  files (fs st) !! storage_path = Some text →
  storage_path ∈ denied (fs st) →
  Storage.load_notified_ids storage_path st = (logged st (Storage.load_failed storage_path OSError), Return ∅).
Proof.
  intros Hf Hd.
  unfold Storage.load_notified_ids, try_except, mbind, M_bind, bind, Storage.path_exists, Storage.read_text.
  rewrite Hf. rewrite bool_decide_eq_true_2 by eauto. cbn [negb].
  rewrite decide_True by done. reflexivity.
Qed.

(** What [load_notified_ids] does with a file it can read. *)
Lemma load_readable storage_path text st :
  files (fs st) !! storage_path = Some text →
  storage_path ∉ denied (fs st) →
  Storage.load_notified_ids storage_path st =
    match data ← loads text; ids ← get data "notified_ids" (JArr []); to_set ids with
    | Return ids0 =>
        (logged st (Log Info "loaded notified paper ids" [("count", FInt (Z.of_nat (size ids0)))]),
         Return ids0)
    | Raise e =>
        if Storage.decode_or_os_error e
        then (logged st (Storage.load_failed storage_path e), Return ∅)
        else (st, Raise e)
    | Unmodelled => (st, Unmodelled)
    end.
Proof.
  intros Hf Hd.
  unfold Storage.load_notified_ids, try_except, mbind at 1 2 3 4 5 6, M_bind, bind, Storage.path_exists,
    Storage.read_text, lift.
  rewrite Hf. rewrite bool_decide_eq_true_2 by eauto. cbn [negb].
  rewrite decide_False by done. rewrite Hf. cbv beta iota.
  destruct (loads text) as [data| |]; cbn; [|by destruct (Storage.decode_or_os_error _)|done].
  destruct (get data "notified_ids" (JArr [])) as [ids| |]; cbn;
    [|by destruct (Storage.decode_or_os_error _)|done].
  destruct (to_set ids) as [ids0| |]; cbn; [done|by destruct (Storage.decode_or_os_error _)|done].
Qed.

Lemma load_ledger_text storage_path ids0 st :
  files (fs st) !! storage_path = Some (Storage.ledger_text ids0) →
  storage_path ∉ denied (fs st) →
  Storage.load_notified_ids storage_path st =
    (logged st (Log Info "loaded notified paper ids" [("count", FInt (Z.of_nat (size ids0)))]), Return ids0).
Proof.
  intros Hf Hd. rewrite (load_readable _ _ _ Hf Hd).
  unfold Storage.ledger_text. rewrite loads_dumps_ledger.
  change (data ← Return (JObj [("notified_ids", JArr (JStr <$> PySort.sorted_set ids0))]);
          ids ← get data "notified_ids" (JArr []); to_set ids)
    with (to_set (JArr (JStr <$> PySort.sorted_set ids0))).
  rewrite to_set_strs, sorted_set_to_set. reflexivity.
Qed.



End storage.





(** * Reasoning about computations *)

Section keeps.
Context `{Env} (I : state → state → Prop) `{!Reflexive I, !Transitive I}.

Lemma keeps_ret {A} (a : A) : keeps I (mret a).
Proof. intros st. reflexivity. Qed.

Lemma keeps_raise {A} e : keeps I (raise (A:=A) e).
Proof. intros st. reflexivity. Qed.

Lemma keeps_lift {A} (o : outcome A) : keeps I (lift o).
Proof. intros st. reflexivity. Qed.

Lemma keeps_bind {A B} (m : M A) (k : A → M B) :
  keeps I m → (∀ a, keeps I (k a)) → keeps I (m ≫= k).
Proof.
  intros Hm Hk st. specialize (Hm st). unfold mbind, M_bind, bind.
  destruct (m st) as [st' [a|e|]]; [|done..].
  etrans; [exact Hm|apply Hk].
Qed.

Lemma keeps_try {A} (m : M A) catches h :
  keeps I m → (∀ e, keeps I (h e)) → keeps I (try_except m catches h).
Proof.
  intros Hm Hh st. specialize (Hm st). unfold try_except.
  destruct (m st) as [st' [a|e|]]; [done| |done].
  destruct (catches e); [|done]. etrans; [exact Hm|apply Hh].
Qed.

Lemma keeps_for_each {A S} (l : list A) (body : A → S → M S) acc :
  (∀ x acc', x ∈ l → keeps I (body x acc')) → keeps I (for_each l body acc).
Proof.
  revert acc. induction l as [|x l IH]; intros acc Hbody.
  - apply keeps_ret.
  - apply keeps_bind; [apply Hbody; left|].
    intros acc'. apply IH. intros ???. apply Hbody. by right.
Qed.

End keeps.

Section frame.
Context `{Env}.

#[global] Instance frame_refl P : Reflexive (frame P).
Proof. intros st. split; [done|]. exists []. by rewrite app_nil_r. Qed.

#[global] Instance frame_trans P : Transitive (frame P).
Proof.
  intros st1 st2 st3 [Hf1 (d1 & Hl1 & HP1)] [Hf2 (d2 & Hl2 & HP2)]. split; [congruence|].
  exists (d1 ++ d2)%list. split; [by rewrite Hl2, Hl1, app_assoc|by apply Forall_app].
Qed.

Lemma frame_mono (P Q : event → Prop) st st' :
  (∀ ev, P ev → Q ev) → frame P st st' → frame Q st st'.
Proof. intros HPQ [Hf (d & Hl & HP)]. split; [done|]. exists d. eauto using Forall_impl. Qed.

Lemma keeps_mono {A} (P Q : event → Prop) (m : M A) :
  (∀ ev, P ev → Q ev) → keeps (frame P) m → keeps (frame Q) m.
Proof. intros HPQ Hm st. eapply frame_mono, Hm. done. Qed.

Lemma keeps_logger P l msg fields : P (Log l msg fields) → keeps (frame P) (logger l msg fields).
Proof. intros HP st. split; [done|]. exists [Log l msg fields]. split; [done|]. by constructor. Qed.

Lemma keeps_call {A} P (op : World → World * (exn + A)) : keeps (frame P) (call op).
Proof.
  intros st. unfold call. destruct (op (world st)) as [w r]. split; [done|].
  exists []. by rewrite app_nil_r.
Qed.

Lemma frame_ret {A} P (a : A) : keeps (frame P) (mret a).
Proof. apply (keeps_ret _). Qed.

Lemma frame_raise {A} P e : keeps (frame P) (raise (A:=A) e).
Proof. apply (keeps_raise _). Qed.

Lemma frame_lift {A} P (o : outcome A) : keeps (frame P) (lift o).
Proof. apply (keeps_lift _). Qed.

Lemma frame_bind {A B} P (m : M A) (k : A → M B) :
  keeps (frame P) m → (∀ a, keeps (frame P) (k a)) → keeps (frame P) (m ≫= k).
Proof. apply (keeps_bind _). Qed.

Lemma frame_try {A} P (m : M A) catches h :
  keeps (frame P) m → (∀ e, keeps (frame P) (h e)) → keeps (frame P) (try_except m catches h).
Proof. apply (keeps_try _). Qed.

Lemma frame_for_each {A S} P (l : list A) (body : A → S → M S) acc :
  (∀ x acc', x ∈ l → keeps (frame P) (body x acc')) → keeps (frame P) (for_each l body acc).
Proof. apply (keeps_for_each _). Qed.

(** ** Outcomes *)

Lemma modelled_ret {A} (a : A) : modelled (mret a).
Proof. by intros st. Qed.

Lemma modelled_raise {A} e : modelled (raise (A:=A) e).
Proof. by intros st. Qed.

Lemma modelled_logger l msg fields : modelled (logger l msg fields).
Proof. by intros st. Qed.

Lemma modelled_call {A} (op : World → World * (exn + A)) : modelled (call op).
Proof. intros st. unfold call. destruct (op (world st)) as [w [e|a]]; done. Qed.

Lemma modelled_lift {A} (o : outcome A) : o ≠ Unmodelled → modelled (lift o).
Proof. by intros Ho st. Qed.

Lemma modelled_bind {A B} (m : M A) (k : A → M B) :
  modelled m → (∀ a, modelled (k a)) → modelled (m ≫= k).
Proof.
  intros Hm Hk st. specialize (Hm st). unfold mbind, M_bind, bind.
  destruct (m st) as [st' [a|e|]]; [apply Hk|done|done].
Qed.

Lemma modelled_try {A} (m : M A) catches h :
  modelled m → (∀ e, modelled (h e)) → modelled (try_except m catches h).
Proof.
  intros Hm Hh st. specialize (Hm st). unfold try_except.
  destruct (m st) as [st' [a|e|]]; [done| |done].
  destruct (catches e); [apply Hh|done].
Qed.

Lemma total_modelled {A} (m : M A) : total m → modelled m.
Proof. intros Hm st. destruct (Hm st) as [a ->]. done. Qed.

Lemma total_ret {A} (a : A) : total (mret a).
Proof. intros st. by exists a. Qed.

Lemma total_logger l msg fields : total (logger l msg fields).
Proof. intros st. by exists tt. Qed.

Lemma total_bind {A B} (m : M A) (k : A → M B) :
  total m → (∀ a, total (k a)) → total (m ≫= k).
Proof.
  intros Hm Hk st. destruct (Hm st) as [a Ha]. unfold mbind, M_bind, bind.
  destruct (m st) as [st' o]. cbn in Ha. subst o. apply Hk.
Qed.

(** [except Exception] with a handler that returns: nothing gets out. *)
Lemma total_try_any {A} (m : M A) h :
  modelled m → (∀ e, total (h e)) → total (try_except m any_exception h).
Proof.
  intros Hm Hh st. specialize (Hm st). unfold try_except.
  destruct (m st) as [st' [a|e|]]; [by exists a|apply Hh|done].
Qed.

Lemma total_for_each {A S} (l : list A) (body : A → S → M S) acc :
  (∀ x acc', total (body x acc')) → total (for_each l body acc).
Proof.
  intros Hbody. revert acc. induction l as [|x l IH]; intros acc.
  - apply total_ret.
  - apply total_bind; [apply Hbody|]. intros acc'. apply IH.
Qed.

Lemma bind_run {A B} (m : M A) (k : A → M B) st :
  (m ≫= k) st =
    match m st with
    | (st', Return a) => k a st'
    | (st', Raise e) => (st', Raise e)
    | (st', Unmodelled) => (st', Unmodelled)
    end.
Proof. reflexivity. Qed.

Lemma for_each_app {A S} (l1 l2 : list A) (body : A → S → M S) acc st :
  for_each (l1 ++ l2) body acc st = (for_each l1 body acc ≫= for_each l2 body) st.
Proof.
  revert acc st. induction l1 as [|x l1 IH]; intros acc st; [done|].
  cbn [app for_each]. unfold mbind, M_bind, bind in *.
  destruct (body x acc st) as [st' [a|e|]]; [apply IH|done|done].
Qed.

End frame.


(** * The components, one by one *)

Ltac keeps_step :=
  first
    [ apply frame_ret | apply frame_raise | apply frame_lift | apply keeps_call
    | apply keeps_logger; try reflexivity
    | apply frame_bind; [|intros ?]
    | apply frame_try; [|intros ?] ].

Ltac modelled_step :=
  first
    [ apply modelled_ret | apply modelled_raise | apply modelled_call | apply modelled_logger
    | apply modelled_bind; [|intros ?]
    | apply modelled_try; [|intros ?] ].

Section components.
Context `{Env}.

Lemma quiet_about papers ev : quiet ev → about papers ev.
Proof. unfold quiet, about. congruence. Qed.

Lemma about_mono l1 l2 ev : l1 ⊆ l2 → about l1 ev → about l2 ev.
Proof. intros Hl Ha Hn. destruct (Ha Hn) as (p & Hp & Hf). eauto. Qed.

Lemma of_sum_modelled {A} (r : exn + A) : of_sum r ≠ Unmodelled.
Proof. by destruct r. Qed.

(** ** pdf.py *)

Lemma download_pdf_quiet paper_id pdf_url : keeps (frame quiet) (Pdf.download_pdf paper_id pdf_url).
Proof. unfold Pdf.download_pdf. repeat keeps_step. Qed.

Lemma download_pdf_modelled paper_id pdf_url : modelled (Pdf.download_pdf paper_id pdf_url).
Proof. unfold Pdf.download_pdf. repeat modelled_step. Qed.

Lemma extract_first_page_quiet content n : keeps (frame quiet) (Pdf.extract_first_page content n).
Proof. unfold Pdf.extract_first_page. repeat keeps_step. Qed.

Lemma extract_first_page_modelled content n : modelled (Pdf.extract_first_page content n).
Proof.
  unfold Pdf.extract_first_page. repeat modelled_step.
  - apply modelled_lift, of_sum_modelled.
  - apply modelled_lift. by rewrite extracted_pages_take.
Qed.

(** ** summarizer.py, notifier.py *)

Lemma summarize_quiet model template paper pdf :
  keeps (frame quiet) (Summarizer.summarize model template paper pdf).
Proof.
  unfold Summarizer.summarize. apply frame_try; [|intros e; repeat keeps_step].
  apply frame_bind; [apply frame_lift|intros prompt].
  apply frame_bind; [by apply keeps_logger|intros _].
  apply frame_bind; [apply keeps_call|intros [summary [[? ?] ?]]].
  repeat keeps_step.
Qed.

Lemma summarize_modelled model template paper pdf :
  modelled (Summarizer.summarize model template paper pdf).
Proof.
  unfold Summarizer.summarize. apply modelled_try; [|intros e; repeat modelled_step].
  apply modelled_bind; [apply modelled_lift, of_sum_modelled|intros prompt].
  apply modelled_bind; [apply modelled_logger|intros _].
  apply modelled_bind; [apply modelled_call|intros [summary [[? ?] ?]]].
  repeat modelled_step.
Qed.

Lemma send_notification_about paper summary :
  keeps (frame (about [paper])) (Notifier.send_notification paper summary).
Proof.
  unfold Notifier.send_notification. repeat keeps_step.
  - intros _. exists paper. split; [by left|]. cbn. by left.
  - by apply quiet_about.
Qed.

Lemma send_notification_modelled paper summary :
  modelled (Notifier.send_notification paper summary).
Proof. unfold Notifier.send_notification. repeat modelled_step. Qed.

(** ** main.py: one paper *)

Lemma pipeline_about settings paper : keeps (frame (about [paper])) (Main.pipeline settings paper).
Proof.
  unfold Main.pipeline.
  apply frame_bind; [eapply keeps_mono, download_pdf_quiet; apply quiet_about|intros ?].
  apply frame_bind; [eapply keeps_mono, extract_first_page_quiet; apply quiet_about|intros ?].
  apply frame_bind; [eapply keeps_mono, summarize_quiet; apply quiet_about|intros ?].
  apply send_notification_about.
Qed.

Lemma pipeline_modelled settings paper : modelled (Main.pipeline settings paper).
Proof.
  unfold Main.pipeline.
  apply modelled_bind; [apply download_pdf_modelled|intros ?].
  apply modelled_bind; [apply extract_first_page_modelled|intros ?].
  apply modelled_bind; [apply summarize_modelled|intros ?].
  apply send_notification_modelled.
Qed.

(** The loop body, case by case on what the pipeline does. *)
Lemma process_paper_run settings is_first_run paper ids st :
  Main.process_paper settings is_first_run paper ids st =
    match Main.pipeline settings paper (logged st (Main.processing paper)) with
    | (st', Return _) =>
        (logged st' (Main.processed paper),
         Return (if is_first_run then ids else ids ∪ {[id paper]}))
    | (st', Raise e) => (logged st' (Main.failed paper e), Return ids)
    | (st', Unmodelled) => (st', Unmodelled)
    end.
Proof.
  unfold Main.process_paper, try_except, mbind, M_bind, bind, Main.emit, logger.
  change (MkState (world st) (fs st) (log st ++ [Log (ev_level (Main.processing paper))
            (ev_msg (Main.processing paper)) (ev_fields (Main.processing paper))]))
    with (logged st (Main.processing paper)).
  destruct (Main.pipeline settings paper (logged st (Main.processing paper))) as [st' [[]|e|]];
    reflexivity.
Qed.

Lemma process_paper_total settings is_first_run paper ids :
  total (Main.process_paper settings is_first_run paper ids).
Proof.
  intros st. rewrite process_paper_run. pose proof (pipeline_modelled settings paper
    (logged st (Main.processing paper))) as Hm.
  destruct (Main.pipeline _ _ _) as [st' [[]|e|]]; cbn; eauto. done.
Qed.

Lemma process_paper_about settings is_first_run paper ids :
  keeps (frame (about [paper])) (Main.process_paper settings is_first_run paper ids).
Proof.
  unfold Main.process_paper, Main.emit.
  apply frame_try; [|intros e; repeat keeps_step; by apply quiet_about].
  apply frame_bind; [|intros _].
  { apply keeps_logger. intros _. exists paper. split; [by left|]. cbn. by left. }
  apply frame_bind; [apply pipeline_about|intros _].
  repeat keeps_step. by apply quiet_about.
Qed.

Lemma process_paper_grows settings is_first_run paper ids st st' ids' :
  Main.process_paper settings is_first_run paper ids st = (st', Return ids') → ids ⊆ ids'.
Proof.
  rewrite process_paper_run. destruct (Main.pipeline _ _ _) as [st2 [[]|e|]]; intros [= _ <-];
    [destruct is_first_run|]; set_solver.
Qed.

(** ** main.py: the loop *)

Lemma process_papers_total settings is_first_run papers ids :
  total (Main.process_papers settings is_first_run papers ids).
Proof. apply total_for_each. intros. apply process_paper_total. Qed.

Lemma process_papers_about settings is_first_run papers ids :
  keeps (frame (about papers)) (Main.process_papers settings is_first_run papers ids).
Proof.
  apply frame_for_each. intros p ids' Hp.
  eapply keeps_mono, process_paper_about. intros ev. apply about_mono.
  intros q ->%list_elem_of_singleton. done.
Qed.

Lemma process_papers_grows settings is_first_run papers ids st st' ids' :
  Main.process_papers settings is_first_run papers ids st = (st', Return ids') → ids ⊆ ids'.
Proof.
  unfold Main.process_papers. revert ids st.
  induction papers as [|p papers IH]; intros ids st; cbn [for_each].
  - by intros [= _ <-].
  - rewrite bind_run. destruct (Main.process_paper _ _ _ _ _) as [st1 [ids1|e|]] eqn:E; [|done..].
    intros Hrest. apply process_paper_grows in E. apply IH in Hrest. set_solver.
Qed.

(** On the first run the loop leaves the ledger as it finds it. *)
Lemma process_papers_first_run settings papers ids st :
  ∃ st', Main.process_papers settings true papers ids st = (st', Return ids).
Proof.
  unfold Main.process_papers. revert st.
  induction papers as [|p papers IH]; intros st; cbn [for_each]; [by eexists|].
  rewrite bind_run, process_paper_run.
  pose proof (pipeline_modelled settings p (logged st (Main.processing p))) as Hm.
  destruct (Main.pipeline _ _ _) as [st1 [[]|e|]]; [apply IH..|done].
Qed.

End components.


Section feeds.
Context `{Env}.

(** ** rss.py *)

Lemma last_item_modelled {A} (l : list A) : PyStr.last_item l ≠ Unmodelled.
Proof. unfold PyStr.last_item. by destruct (last l). Qed.

Lemma parse_entry_modelled entry : Rss._parse_entry entry ≠ Unmodelled.
Proof.
  unfold Rss._parse_entry, Rss.attr, Rss.paper_id.
  destruct (entry_id entry) as [raw|]; [|done]. cbn.
  destruct (PyStr.contains "abs" raw).
  - pose proof (last_item_modelled (PyStr.split "/abs/" raw)) as Hl.
    destruct (PyStr.last_item _); [|done..]. cbn.
    destruct (entry_title entry); [|done]. by destruct (entry_link entry).
  - cbn. destruct (entry_title entry); [|done]. by destruct (entry_link entry).
Qed.

Lemma parse_feed_quiet url : keeps (frame quiet) (Rss._parse_feed url).
Proof.
  unfold Rss._parse_feed. apply frame_bind; [apply keeps_call|intros entries].
  apply frame_for_each. intros entry papers _. repeat keeps_step.
Qed.

Lemma parse_feed_modelled url : modelled (Rss._parse_feed url).
Proof.
  unfold Rss._parse_feed. apply modelled_bind; [apply modelled_call|intros entries].
  apply total_modelled, total_for_each. intros entry papers.
  apply total_try_any.
  - apply modelled_bind; [apply modelled_lift, parse_entry_modelled|intros ?; apply modelled_ret].
  - intros e. apply total_bind; [apply total_logger|intros ?; apply total_ret].
Qed.

Lemma fetch_papers_quiet urls : keeps (frame quiet) (Rss.fetch_papers urls).
Proof.
  unfold Rss.fetch_papers. apply frame_bind; [|intros ?; repeat keeps_step].
  apply frame_for_each. intros url papers _.
  apply frame_try; [|intros e; repeat keeps_step].
  apply frame_bind; [apply parse_feed_quiet|intros ?]. repeat keeps_step.
Qed.


Lemma parse_feed_unreachable url st e :
  (feedparser_parse url (world st)).2 = inl e →
  ∃ st', Rss._parse_feed url st = (st', Raise e) ∧
         world st' = (feedparser_parse url (world st)).1.
Proof.
  intros Hf. unfold Rss._parse_feed. rewrite bind_run. unfold call.
  destruct (feedparser_parse url (world st)) as [w r]. cbn in Hf. subst r. eauto.
Qed.

Lemma fetch_loop_unreachable (down : World → Prop) urls acc st :
  down (world st) →
  (∀ url w, down w → url ∈ urls →
     ∃ e, (feedparser_parse url w).2 = inl e ∧ down (feedparser_parse url w).1) →
  ∃ st', for_each urls
           (λ url all_papers,
              try_except
                (papers ← Rss._parse_feed url;
                 logger Info "fetched papers from feed" [("url", FStr url); ("count", FInt (len papers))];;
                 mret (all_papers ++ papers)%list)
                any_exception
                (λ e,
                   logger Error "failed to fetch feed" [("url", FStr url); ("error", FExn e)];;
                   mret all_papers))
           acc st = (st', Return acc).
Proof.
  revert st. induction urls as [|url urls IH]; intros st Hdown Hfail; [by eexists|].
  cbn [for_each]. rewrite bind_run. unfold try_except at 1. rewrite bind_run.
  destruct (Hfail url (world st)) as (e & He & Hnext); [done|by left|].
  destruct (parse_feed_unreachable url st e He) as (st1 & -> & Hw).
  cbn. apply IH; [cbn; by rewrite Hw|]. intros ????. apply Hfail; [done|by right].
Qed.

(** When every feed is down, and stays down, nothing is fetched. *)
Lemma fetch_papers_unreachable (down : World → Prop) urls st :
  down (world st) →
  (∀ url w, down w → url ∈ urls →
     ∃ e, (feedparser_parse url w).2 = inl e ∧ down (feedparser_parse url w).1) →
  ∃ st', Rss.fetch_papers urls st = (st', Return []).
Proof.
  intros Hdown Hfail. unfold Rss.fetch_papers. rewrite bind_run.
  destruct (fetch_loop_unreachable down urls [] st Hdown Hfail) as [st1 ->]. cbn. eauto.
Qed.

(** ** storage.py, config.py and the first lines of main *)

Lemma load_quiet storage_path : keeps (frame quiet) (Storage.load_notified_ids storage_path).
Proof.
  intros st. destruct (files (fs st) !! storage_path) as [text|] eqn:Hf.
  - destruct (decide (storage_path ∈ denied (fs st))) as [Hd|Hd].
    + rewrite (load_unreadable _ _ _ Hf Hd). split; [done|]. eexists [_]. split; [done|].
      by repeat constructor.
    + rewrite (load_readable _ _ _ Hf Hd).
      destruct (_ ≫= _) as [ids|e|]; [| |reflexivity].
      * split; [done|]. eexists [_]. split; [done|]. by repeat constructor.
      * destruct (Storage.decode_or_os_error e); [|reflexivity].
        split; [done|]. eexists [_]. split; [done|]. by repeat constructor.
  - rewrite (load_missing _ _ Hf). split; [done|]. eexists [_]. split; [done|].
    by repeat constructor.
Qed.

Lemma get_settings_quiet : keeps (frame quiet) Config.get_settings.
Proof. intros st. reflexivity. Qed.

Lemma startup_quiet : keeps (frame quiet) Main.startup.
Proof.
  unfold Main.startup, Storage.init.
  apply frame_bind; [repeat keeps_step|intros ?].
  apply frame_bind; [apply get_settings_quiet|intros ?].
  repeat keeps_step.
Qed.



End feeds.

Local Open Scope list_scope.

(** * The order of strings and the stable sort *)

Lemma ltb_leb a b : String.ltb a b = true → String.leb a b = true.
Proof. unfold String.ltb, String.leb. by destruct (String.compare a b). Qed.

Lemma not_ltb_leb a b : String.ltb a b = false → String.leb b a = true.
Proof.
  unfold String.ltb, String.leb. rewrite (String.compare_antisym b a).
  by destruct (String.compare a b).
Qed.

Lemma leb_trans a b c : String.leb a b = true → String.leb b c = true → String.leb a c = true.
Proof.
  intros Hab Hbc. apply Is_true_true. change (String.le a c).
  etrans; apply Is_true_true; eassumption.
Qed.

(** The head of the sorted list is the first item of the list whose key
    is the greatest. *)
Lemma sorted_desc_head {A} (key : A → string) (l : list A) :
  l ≠ [] →
  ∃ sel pre post rest,
    l = pre ++ sel :: post ∧
    (∀ q, q ∈ pre → String.ltb (key q) (key sel) = true) ∧
    (∀ q, q ∈ post → String.leb (key q) (key sel) = true) ∧
    PySort.sorted_desc key l = sel :: rest.
Proof.
  induction l as [|x l IH]; [done|]. intros _.
  destruct l as [|y l].
  - exists x, [], [], []. split_and!; [done|intros ? []%elem_of_nil..|done].
  - destruct IH as (sel & pre & post & rest & Hl & Hpre & Hpost & Hs); [done|].
    cbn [PySort.sorted_desc] in *. rewrite Hs. cbn [PySort.insert_desc].
    destruct (String.ltb (key x) (key sel)) eqn:Hx.
    + exists sel, (x :: pre), post, (PySort.insert_desc key x rest).
      split_and!; [by rewrite Hl| |done|done].
      intros q [->|Hq]%elem_of_cons; auto.
    + exists x, [], (y :: l), (sel :: rest). split_and!; [done|intros ? []%elem_of_nil| |done].
      intros q Hq. rewrite Hl in Hq. apply not_ltb_leb in Hx.
      apply elem_of_app in Hq as [Hq|[->|Hq]%elem_of_cons];
        [eapply leb_trans; [apply ltb_leb, Hpre, Hq|done]|done|
         eapply leb_trans; [apply Hpost, Hq|done]].
Qed.

(** * main.py: what is new, what is processed *)

Lemma new_papers_filter papers (ids : gset string) :
  Main.new_papers papers ids = filter (λ p, id p ∉ ids) papers.
Proof.
  induction papers as [|p papers IH]; [done|]. cbn [Main.new_papers].
  rewrite filter_cons. destruct (decide (id p ∈ ids)) as [Hin|Hin].
  - rewrite decide_False by (intros Hn; by apply Hn). done.
  - rewrite decide_True by done. by rewrite IH.
Qed.

Lemma new_papers_empty papers : Main.new_papers papers ∅ = papers.
Proof.
  induction papers as [|p papers IH]; [done|]. cbn [Main.new_papers].
  rewrite decide_False by apply not_elem_of_empty. by rewrite IH.
Qed.

Lemma mark_all_union new (ids : gset string) :
  Main.mark_all new ids = ids ∪ list_to_set (id <$> new).
Proof.
  revert ids. induction new as [|p new IH]; intros ids; cbn [Main.mark_all].
  - cbn. by rewrite (right_id_L ∅ (∪)).
  - rewrite IH. cbn [fmap list_fmap list_to_set]. by rewrite (assoc_L (∪)).
Qed.

Lemma latest_head new :
  new ≠ [] →
  ∃ sel pre post,
    new = pre ++ sel :: post ∧
    (∀ q, q ∈ pre → String.ltb (published q) (published sel) = true) ∧
    (∀ q, q ∈ post → String.leb (published q) (published sel) = true) ∧
    Main.latest new = [sel].
Proof.
  intros Hne. destruct (sorted_desc_head published new Hne) as (sel & pre & post & rest & ? & ? & ? & Hs).
  exists sel, pre, post. unfold Main.latest. rewrite Hs. done.
Qed.

Lemma latest_subseteq new : Main.latest new ⊆ new.
Proof.
  destruct new as [|p new]; [done|].
  destruct (latest_head (p :: new)) as (sel & pre & post & Hl & _ & _ & ->); [done|].
  intros q ->%list_elem_of_singleton. rewrite Hl. set_solver.
Qed.

Section run.
Context `{Env}.

Lemma plan_run is_first_run new ids st :
  Main.plan is_first_run new ids st =
    if is_first_run && negb (Main.is_empty new)
    then (logged st Main.first_run_detected, Return (Main.latest new, Main.mark_all new ids))
    else (st, Return (new, ids)).
Proof. unfold Main.plan. by destruct (is_first_run && negb (Main.is_empty new)). Qed.

Lemma plan_cases is_first_run new ids st :
  ∃ st' to_process ids',
    Main.plan is_first_run new ids st = (st', Return (to_process, ids')) ∧
    frame quiet st st' ∧ to_process ⊆ new ∧ ids ⊆ ids'.
Proof.
  rewrite plan_run. destruct (is_first_run && negb (Main.is_empty new)).
  - eexists _, _, _. split_and!; [done| |apply latest_subseteq|rewrite mark_all_union; set_solver].
    split; [done|]. eexists [_]. split; [done|]. by repeat constructor.
  - eexists _, _, _. split_and!; [done|reflexivity|done|done].
Qed.

Lemma run_nonempty settings ids papers st :
  papers ≠ [] →
  Main.run settings ids papers st =
    ('(to_process, ids1) ← Main.plan (bool_decide (size ids = 0%nat)) (Main.new_papers papers ids) ids;
     ids2 ← Main.process_papers settings (bool_decide (size ids = 0%nat)) to_process ids1;
     Main.finish settings (Main.new_papers papers ids) ids2)
      (logged st (Main.filtered papers (Main.new_papers papers ids) (bool_decide (size ids = 0%nat)))).
Proof. destruct papers; [done|]. reflexivity. Qed.

Lemma finish_run settings new ids st :
  Main.finish settings new ids st =
    if decide (storage_file settings ∈ denied (fs st))
    then (logged st (Log Error "failed to save storage file"
                       [("error", FExn OSError); ("path", FStr (storage_file settings))]),
          Raise OSError)
    else (logged (logged (written st (storage_file settings) (Storage.ledger_text ids))
                    (Log Info "saved notified paper ids" [("count", FInt (Z.of_nat (size ids)))]))
            (Log Info "arxiv watcher completed"
               [("papers_processed", FInt (len new)); ("total_notified", FInt (Z.of_nat (size ids)))]),
          Return tt).
Proof.
  unfold Main.finish. rewrite bind_run. case_decide as Hd.
  - by rewrite save_denied.
  - by rewrite save_ok.
Qed.

End run.

Section orchestration.
Context `{Env}.

Lemma frame_grows P st st' : frame P st st' → grows P st st'.
Proof. by intros [_ ?]. Qed.

Lemma grows_refl P st : grows P st st.
Proof. exists []. by rewrite app_nil_r. Qed.

Lemma grows_trans P st1 st2 st3 : grows P st1 st2 → grows P st2 st3 → grows P st1 st3.
Proof.
  intros (d1 & Hl1 & HP1) (d2 & Hl2 & HP2). exists (d1 ++ d2).
  split; [by rewrite Hl2, Hl1, app_assoc|by apply Forall_app].
Qed.

Lemma grows_mono (P Q : event → Prop) st st' : (∀ ev, P ev → Q ev) → grows P st st' → grows Q st st'.
Proof. intros HPQ (d & Hl & HP). exists d. eauto using Forall_impl. Qed.

Lemma grows_logged P st ev : P ev → grows P st (logged st ev).
Proof. intros HP. exists [ev]. split; [done|]. by constructor. Qed.

Lemma grows_written P st path text : grows P st (written st path text).
Proof. exists []. split; [cbn; by rewrite app_nil_r|done]. Qed.

Lemma finish_grows settings new ids st : grows quiet st (Main.finish settings new ids st).1.
Proof.
  rewrite finish_run. case_decide.
  - by apply grows_logged.
  - cbn [fst]. eapply grows_trans; [eapply grows_trans; [apply grows_written|]|];
      by apply grows_logged.
Qed.

(** The log of [run]: whatever is processed or notified is new. *)
Lemma run_grows settings ids papers st :
  grows (about (Main.new_papers papers ids)) st (Main.run settings ids papers st).1.
Proof.
  destruct (decide (papers = [])) as [->|Hne].
  { apply (grows_logged _ st). by apply quiet_about. }
  rewrite run_nonempty by done. set (new := Main.new_papers papers ids).
  set (st0 := logged st _).
  assert (H0 : grows (about new) st st0) by by apply grows_logged, quiet_about.
  rewrite bind_run.
  destruct (plan_cases (bool_decide (size ids = 0%nat)) new ids st0)
    as (st1 & to_process & ids1 & -> & Hf1 & Hsub & _).
  assert (H1 : grows (about new) st0 st1).
  { eapply grows_mono, frame_grows, Hf1. apply quiet_about. }
  rewrite bind_run.
  pose proof (process_papers_about settings (bool_decide (size ids = 0%nat)) to_process ids1 st1) as Hf2.
  destruct (process_papers_total settings (bool_decide (size ids = 0%nat)) to_process ids1 st1) as [ids2 Hr].
  destruct (Main.process_papers _ _ _ _ _) as [st2 o]. cbn in Hr, Hf2. subst o.
  assert (H2 : grows (about new) st1 st2).
  { eapply grows_mono, frame_grows, Hf2. intros ev. by apply about_mono. }
  eapply grows_trans; [exact H0|]. eapply grows_trans; [exact H1|].
  eapply grows_trans; [exact H2|]. eapply grows_mono, finish_grows. apply quiet_about.
Qed.

(** Claim C2.  The new papers are the fetched papers whose id is not in the
    loaded ledger, in the order of the fetched list; and every log line of
    the run that reports a paper being processed or notified carries the
    id of a fetched paper that is not in the loaded ledger. *)
Theorem new_papers_stable_filter settings papers (ids : gset string) st :
  Main.new_papers papers ids = filter (λ p, id p ∉ ids) papers ∧
  sublist (Main.new_papers papers ids) papers ∧
  (∀ p, p ∈ Main.new_papers papers ids ↔ p ∈ papers ∧ id p ∉ ids) ∧
  (∀ st0 st1 to_process ids1,
     Main.plan (bool_decide (size ids = 0%nat)) (Main.new_papers papers ids) ids st0
       = (st1, Return (to_process, ids1)) →
     ∀ p, p ∈ to_process → p ∈ papers ∧ id p ∉ ids) ∧
  ∃ delta,
    log (Main.run settings ids papers st).1 = log st ++ delta ∧
    ∀ ev, ev ∈ delta → is_notice ev = true →
      ∃ p, p ∈ papers ∧ (id p ∉ ids) ∧ ("paper_id", FStr (id p)) ∈ ev_fields ev.
Proof.
  split_and!.
  - apply new_papers_filter.
  - rewrite new_papers_filter. apply sublist_filter.
  - intros p. rewrite new_papers_filter, list_elem_of_filter. tauto.
  - intros st0 st1 to_process ids1 Hplan p Hp.
    destruct (plan_cases (bool_decide (size ids = 0%nat)) (Main.new_papers papers ids) ids st0)
      as (st1' & to_process' & ids1' & Hplan' & _ & Hsub & _).
    rewrite Hplan' in Hplan. injection Hplan as _ <- _.
    apply Hsub in Hp. rewrite new_papers_filter, list_elem_of_filter in Hp. tauto.
  - destruct (run_grows settings ids papers st) as (delta & Hl & Hd).
    exists delta. split; [done|]. intros ev Hev Hn.
    rewrite Forall_forall in Hd. destruct (Hd ev Hev Hn) as (p & Hp & Hf).
    rewrite new_papers_filter in Hp. apply list_elem_of_filter in Hp as [? ?]. eauto.
Qed.

(** Claim C1.  On a first run (the loaded ledger is empty) that fetched some
    paper, every fetched paper is new and exactly one, [sel], is chosen:
    no paper has a greater [published] value and the papers before it in
    the feed have a smaller one.  The ledger given to the processing loop
    already holds the id of every new paper, and the loop, run on [sel]
    alone, returns that ledger. *)
Theorem first_run_processes_latest settings papers st :
  papers ≠ [] →
  ∃ sel pre post,
    Main.new_papers papers ∅ = papers ∧
    papers = pre ++ sel :: post ∧
    (∀ q, q ∈ pre → String.ltb (published q) (published sel) = true) ∧
    (∀ q, q ∈ post → String.leb (published q) (published sel) = true) ∧
    Main.plan true papers ∅ (logged st (Main.filtered papers papers true))
      = (logged (logged st (Main.filtered papers papers true)) Main.first_run_detected,
         Return ([sel], list_to_set (id <$> papers))) ∧
    Main.run settings ∅ papers st
      = (Main.process_papers settings true [sel] (list_to_set (id <$> papers))
           ≫= Main.finish settings papers)
          (logged (logged st (Main.filtered papers papers true)) Main.first_run_detected) ∧
    ∃ st2,
      Main.process_papers settings true [sel] (list_to_set (id <$> papers))
        (logged (logged st (Main.filtered papers papers true)) Main.first_run_detected)
      = (st2, Return (list_to_set (id <$> papers))).
Proof.
  intros Hne. destruct (latest_head papers Hne) as (sel & pre & post & Hl & Hpre & Hpost & Hsel).
  assert (Hplan : ∀ st0, Main.plan true papers ∅ st0
            = (logged st0 Main.first_run_detected, Return ([sel], list_to_set (id <$> papers)))).
  { intros st0. rewrite plan_run. destruct papers; [done|]. cbn [Main.is_empty negb andb].
    rewrite Hsel, mark_all_union. do 3 f_equal. apply (left_id_L ∅ (∪)). }
  exists sel, pre, post. split_and!; [apply new_papers_empty|done..| |apply Hplan| |].
  - done.
  - rewrite run_nonempty by done. rewrite new_papers_empty.
    change (bool_decide (size (∅ : gset string) = 0%nat)) with true.
    rewrite bind_run, Hplan. reflexivity.
  - apply process_papers_first_run.
Qed.

(** ** The loop, paper by paper *)

Lemma process_papers_app settings is_first_run l1 l2 ids st :
  Main.process_papers settings is_first_run (l1 ++ l2) ids st =
    (Main.process_papers settings is_first_run l1 ids
       ≫= Main.process_papers settings is_first_run l2) st.
Proof. apply for_each_app. Qed.

Lemma process_papers_one settings is_first_run p ids st :
  Main.process_papers settings is_first_run [p] ids st =
    Main.process_paper settings is_first_run p ids st.
Proof.
  unfold Main.process_papers. cbn [for_each]. rewrite bind_run.
  by destruct (Main.process_paper _ _ _ _ _) as [st' [a|e|]].
Qed.

Lemma process_papers_returns settings is_first_run papers ids st :
  ∃ st' ids', Main.process_papers settings is_first_run papers ids st = (st', Return ids').
Proof.
  destruct (process_papers_total settings is_first_run papers ids st) as [ids' Hr].
  destruct (Main.process_papers _ _ _ _ _) as [st' o]. cbn in Hr. subst o. eauto.
Qed.

(** The iteration for the paper at position [k]. *)
Lemma process_papers_step settings papers ids st k p stk idsk :
  papers !! k = Some p →
  Main.process_papers settings false (take k papers) ids st = (stk, Return idsk) →
  match Main.pipeline settings p (logged stk (Main.processing p)) with
  | (st2, Return _) =>
      Main.process_papers settings false (take (S k) papers) ids st
      = (logged st2 (Main.processed p), Return (idsk ∪ {[id p]}))
  | (st2, Raise e) =>
      Main.process_papers settings false (take (S k) papers) ids st
      = (logged st2 (Main.failed p e), Return idsk)
  | (st2, Unmodelled) => False
  end.
Proof.
  intros Hk Hpre. rewrite (take_S_r _ _ _ Hk), process_papers_app, bind_run, Hpre.
  rewrite process_papers_one, process_paper_run.
  pose proof (pipeline_modelled settings p (logged stk (Main.processing p))) as Hm.
  by destruct (Main.pipeline _ _ _) as [st2 [[]|e|]].
Qed.

(** What the ledger holds after the loop. *)
Lemma process_papers_ledger settings papers ids st st' ids' :
  Main.process_papers settings false papers ids st = (st', Return ids') →
  ∀ i, i ∈ ids' ↔
    i ∈ ids ∨
    ∃ k p stk idsk st2,
      papers !! k = Some p ∧ id p = i ∧
      Main.process_papers settings false (take k papers) ids st = (stk, Return idsk) ∧
      Main.pipeline settings p (logged stk (Main.processing p)) = (st2, Return tt).
Proof.
  revert st' ids'. induction papers as [|p papers IH] using rev_ind; intros st' ids' Hrun i.
  - injection Hrun as <- <-. split; [by left|]. intros [?|(k & p & ? & ? & ? & Hk & _)]; [done|].
    by rewrite lookup_nil in Hk.
  - rewrite process_papers_app, bind_run in Hrun.
    destruct (process_papers_returns settings false papers ids st) as (stl & idsl & Hl).
    rewrite Hl in Hrun. rewrite process_papers_one, process_paper_run in Hrun.
    specialize (IH _ _ Hl i).
    assert (Hshift : ∀ k, (k < length papers)%nat →
              take k (papers ++ [p]) = take k papers ∧ (papers ++ [p]) !! k = papers !! k).
    { intros k Hk. split; [by rewrite take_app_le by lia|by rewrite lookup_app_l by lia]. }
    assert (Hend : take (length papers) (papers ++ [p]) = papers ∧
                   (papers ++ [p]) !! length papers = Some p).
    { split; [by rewrite take_app_length|by rewrite list_lookup_middle]. }
    assert (Hold : (∃ k q stk idsk st2,
                papers !! k = Some q ∧ id q = i ∧
                Main.process_papers settings false (take k papers) ids st = (stk, Return idsk) ∧
                Main.pipeline settings q (logged stk (Main.processing q)) = (st2, Return tt)) →
              ∃ k q stk idsk st2,
                (papers ++ [p]) !! k = Some q ∧ id q = i ∧
                Main.process_papers settings false (take k (papers ++ [p])) ids st = (stk, Return idsk) ∧
                Main.pipeline settings q (logged stk (Main.processing q)) = (st2, Return tt)).
    { intros (k & q & stk & idsk & st2 & Hk & Hq & Hpre & Hok).
      exists k, q, stk, idsk, st2.
      destruct (Hshift k) as [-> ->]; [by eapply lookup_lt_Some|]. done. }
    assert (Hnew : (∃ k q stk idsk st2,
                (papers ++ [p]) !! k = Some q ∧ id q = i ∧
                Main.process_papers settings false (take k (papers ++ [p])) ids st = (stk, Return idsk) ∧
                Main.pipeline settings q (logged stk (Main.processing q)) = (st2, Return tt)) →
              (∃ k q stk idsk st2,
                papers !! k = Some q ∧ id q = i ∧
                Main.process_papers settings false (take k papers) ids st = (stk, Return idsk) ∧
                Main.pipeline settings q (logged stk (Main.processing q)) = (st2, Return tt)) ∨
              (id p = i ∧ ∃ st2, Main.pipeline settings p (logged stl (Main.processing p)) = (st2, Return tt))).
    { intros (k & q & stk & idsk & st2 & Hk & Hq & Hpre & Hok).
      destruct (decide (k < length papers)%nat) as [Hlt|Hge].
      - left. destruct (Hshift k Hlt) as [Ht Hlk]. rewrite Ht in Hpre. rewrite Hlk in Hk. eauto 10.
      - right. assert (k = length papers) as ->.
        { apply lookup_lt_Some in Hk. rewrite length_app in Hk. simpl in Hk. lia. }
        destruct Hend as [Ht Hlk]. rewrite Ht in Hpre. rewrite Hlk in Hk.
        injection Hk as <-. rewrite Hl in Hpre. injection Hpre as <- <-. eauto. }
    destruct (Main.pipeline settings p (logged stl (Main.processing p))) as [st2 [[]|e|]] eqn:Hp;
      [| |done]; injection Hrun as <- <-.
    + rewrite elem_of_union, elem_of_singleton, IH. split.
      * intros [[?|Hex]| ->]; [by left|right; by apply Hold|].
        right. exists (length papers), p, stl, idsl, st2. destruct Hend as [-> ->]. done.
      * intros [?|Hex]; [by left; left|]. destruct (Hnew Hex) as [?|[<- _]]; [left; by right|by right].
    + rewrite IH. split.
      * intros [?|Hex]; [by left|right; by apply Hold].
      * intros [?|Hex]; [by left|]. destruct (Hnew Hex) as [?|[_ [? ?]]]; [by right|done].
Qed.

Lemma run_not_first settings ids papers st :
  ids ≠ ∅ → papers ≠ [] →
  Main.run settings ids papers st =
    (Main.process_papers settings false (Main.new_papers papers ids) ids
       ≫= Main.finish settings (Main.new_papers papers ids))
      (logged st (Main.filtered papers (Main.new_papers papers ids) false)).
Proof.
  intros Hids Hne. rewrite run_nonempty by done.
  rewrite bool_decide_eq_false_2 by (by intros ?%size_empty_inv%leibniz_equiv).
  rewrite bind_run, plan_run. reflexivity.
Qed.

(** Claim C3, as amended.  On a run that is not the first, the loop over
    the new papers returns and the ledger it returns is saved.  For the
    paper at each position: if its pipeline succeeds its id is added to
    the ledger and is in the ledger at the end; if its pipeline raises,
    the failure is logged with the paper's id, the ledger is left as it
    was and the loop goes on.  An id is in the ledger at the end exactly
    when it was loaded or the pipeline succeeded for some paper of the
    list with that id. *)
Theorem failures_are_isolated settings (ids : gset string) papers st :
  ids ≠ ∅ → papers ≠ [] →
  ∃ st' ids',
    Main.process_papers settings false (Main.new_papers papers ids) ids
      (logged st (Main.filtered papers (Main.new_papers papers ids) false)) = (st', Return ids') ∧
    Main.run settings ids papers st = Main.finish settings (Main.new_papers papers ids) ids' st' ∧
    (∀ k p, Main.new_papers papers ids !! k = Some p →
       ∃ stk idsk,
         Main.process_papers settings false (take k (Main.new_papers papers ids)) ids
           (logged st (Main.filtered papers (Main.new_papers papers ids) false)) = (stk, Return idsk) ∧
         match Main.pipeline settings p (logged stk (Main.processing p)) with
         | (st2, Return _) =>
             Main.process_papers settings false (take (S k) (Main.new_papers papers ids)) ids
               (logged st (Main.filtered papers (Main.new_papers papers ids) false))
             = (logged st2 (Main.processed p), Return (idsk ∪ {[id p]})) ∧
             id p ∈ ids'
         | (st2, Raise e) =>
             Main.process_papers settings false (take (S k) (Main.new_papers papers ids)) ids
               (logged st (Main.filtered papers (Main.new_papers papers ids) false))
             = (logged st2 (Main.failed p e), Return idsk)
         | (st2, Unmodelled) => False
         end) ∧
    (∀ i, i ∈ ids' ↔
       i ∈ ids ∨
       ∃ k p stk idsk st2,
         Main.new_papers papers ids !! k = Some p ∧ id p = i ∧
         Main.process_papers settings false (take k (Main.new_papers papers ids)) ids
           (logged st (Main.filtered papers (Main.new_papers papers ids) false)) = (stk, Return idsk) ∧
         Main.pipeline settings p (logged stk (Main.processing p)) = (st2, Return tt)).
Proof.
  intros Hids Hne. set (new := Main.new_papers papers ids). set (st0 := logged st _).
  destruct (process_papers_returns settings false new ids st0) as (st' & ids' & Hrun).
  exists st', ids'. split_and!.
  - done.
  - rewrite run_not_first by done. fold new st0. by rewrite bind_run, Hrun.
  - intros k p Hk.
    destruct (process_papers_returns settings false (take k new) ids st0) as (stk & idsk & Hpre).
    exists stk, idsk. split; [done|].
    pose proof (process_papers_step settings new ids st0 k p stk idsk Hk Hpre) as Hstep.
    destruct (Main.pipeline settings p (logged stk (Main.processing p))) as [st2 [[]|e|]] eqn:Hp;
      [|done..].
    split; [done|].
    apply (process_papers_ledger _ _ _ _ _ _ Hrun). right. eauto 10.
  - by eapply process_papers_ledger.
Qed.

(** ** The whole run *)

Lemma main_run st :
  Main.main st =
    match Main.body st with
    | (st', Return _) => (st', Return 0%Z)
    | (st', Raise e) => (logged st' (Log Error "arxiv watcher failed" [("error", FExn e)]), Return 1%Z)
    | (st', Unmodelled) => (st', Unmodelled)
    end.
Proof.
  unfold Main.main, try_except. rewrite bind_run.
  by destruct (Main.body st) as [st' [[]|e|]].
Qed.

Lemma body_run st :
  Main.body st =
    match Main.startup st with
    | (st0, Return settings) =>
        match Storage.load_notified_ids (storage_file settings) st0 with
        | (st1, Return ids) =>
            match Rss.fetch_papers (rss_urls settings) st1 with
            | (st2, Return papers) => Main.run settings ids papers st2
            | (st2, Raise e) => (st2, Raise e)
            | (st2, Unmodelled) => (st2, Unmodelled)
            end
        | (st1, Raise e) => (st1, Raise e)
        | (st1, Unmodelled) => (st1, Unmodelled)
        end
    | (st0, Raise e) => (st0, Raise e)
    | (st0, Unmodelled) => (st0, Unmodelled)
    end.
Proof. reflexivity. Qed.


Lemma run_empty settings ids st :
  Main.run settings ids [] st = (logged st (Log Info "no papers found in feeds" []), Return tt).
Proof. reflexivity. Qed.

(** What [run] comes to when some paper was fetched. *)
Lemma run_cases settings ids papers st :
  papers ≠ [] →
  ∃ st2 saved,
    fs st2 = fs st ∧ ids ⊆ saved ∧
    Main.run settings ids papers st = Main.finish settings (Main.new_papers papers ids) saved st2.
Proof.
  intros Hne. rewrite run_nonempty by done. set (st0 := logged st _). rewrite bind_run.
  destruct (plan_cases (bool_decide (size ids = 0%nat)) (Main.new_papers papers ids) ids st0)
    as (st1 & to_process & ids1 & -> & [Hf1 _] & _ & Hsub1).
  rewrite bind_run.
  pose proof (process_papers_about settings (bool_decide (size ids = 0%nat)) to_process ids1 st1) as [Hf2 _].
  destruct (process_papers_returns settings (bool_decide (size ids = 0%nat)) to_process ids1 st1)
    as (st2 & ids2 & Hrun).
  rewrite Hrun in Hf2 |- *. cbn [fst] in Hf2.
  apply process_papers_grows in Hrun.
  exists st2, ids2. split_and!; [by rewrite Hf2, Hf1|set_solver|done].
Qed.

(** Claim C10.  Marking the new papers and processing a paper only add to
    the ledger; when a run that fetched some paper returns, the file it
    wrote holds a superset of the loaded set; and [add_notified_id] writes
    the loaded set with the id added. *)
Theorem ledger_only_grows settings (ids : gset string) papers st :
  (∀ new, ids ⊆ Main.mark_all new ids) ∧
  (∀ is_first_run p st0 st1 ids1,
     Main.process_paper settings is_first_run p ids st0 = (st1, Return ids1) → ids ⊆ ids1) ∧
  (∀ st', papers ≠ [] → Main.run settings ids papers st = (st', Return tt) →
     ∃ saved, ids ⊆ saved ∧
       files (fs st') !! storage_file settings = Some (Storage.ledger_text saved)) ∧
  (∀ path paper_id st1 st',
     Storage.load_notified_ids path st = (st1, Return ids) →
     Storage.add_notified_id path paper_id st = (st', Return tt) →
     files (fs st') !! path = Some (Storage.ledger_text (ids ∪ {[paper_id]}))).
Proof.
  split_and!.
  - intros new. rewrite mark_all_union. set_solver.
  - intros ?????. apply process_paper_grows.
  - intros st' Hne Hrun.
    destruct (run_cases settings ids papers st Hne) as (st2 & saved & _ & Hsub & Heq).
    rewrite Heq, finish_run in Hrun. case_decide; [done|]. injection Hrun as <-.
    exists saved. split; [done|]. apply lookup_insert_eq.
  - intros path paper_id st1 st' Hload. unfold Storage.add_notified_id.
    rewrite bind_run, Hload.
    destruct (decide (path ∈ denied (fs st1))) as [Hd|Hd].
    + by rewrite save_denied.
    + rewrite save_ok by done. intros [= <-]. apply lookup_insert_eq.
Qed.

(** Claim C7.  Once the settings are read and the ledger is loaded, if the
    feeds yield no paper then [main] returns with exit status 0, the file
    system is as it was at the start and no log line reports a paper being
    processed or notified; and the feeds yield no paper whenever every
    configured feed is down and stays down. *)
Theorem empty_fetch_is_noop st settings ids st0 st1 :
  Main.startup st = (st0, Return settings) →
  Storage.load_notified_ids (storage_file settings) st0 = (st1, Return ids) →
  (∀ st2, Rss.fetch_papers (rss_urls settings) st1 = (st2, Return []) →
     Main.main st = (logged st2 (Log Info "no papers found in feeds" []), Return 0%Z) ∧
     fs (Main.main st).1 = fs st ∧
     grows quiet st (Main.main st).1) ∧
  (∀ down : World → Prop,
     down (world st1) →
     (∀ url w, down w → url ∈ rss_urls settings →
        ∃ e, (feedparser_parse url w).2 = inl e ∧ down (feedparser_parse url w).1) →
     ∃ st2, Rss.fetch_papers (rss_urls settings) st1 = (st2, Return [])).
Proof.
  intros Hstart Hload. split; [|intros down; apply fetch_papers_unreachable].
  intros st2 Hfetch.
  assert (Hmain : Main.main st = (logged st2 (Log Info "no papers found in feeds" []), Return 0%Z)).
  { by rewrite main_run, body_run, Hstart, Hload, Hfetch, run_empty. }
  rewrite Hmain. split; [done|].
  pose proof (startup_quiet st) as H0. rewrite Hstart in H0.
  pose proof (load_quiet (storage_file settings) st0) as H1. rewrite Hload in H1.
  pose proof (fetch_papers_quiet (rss_urls settings) st1) as H2. rewrite Hfetch in H2.
  cbn [fst] in *. split.
  - destruct H0 as [H0 _], H1 as [H1 _], H2 as [H2 _]. cbn. congruence.
  - eapply grows_trans; [apply frame_grows, H0|].
    eapply grows_trans; [apply frame_grows, H1|].
    eapply grows_trans; [apply frame_grows, H2|]. by apply grows_logged.
Qed.






End orchestration.


(** * The theorems at work on the sample environment *)

Lemma first_run_processes_latest_witness :
  ∃ st1,
    Main.plan (H:=Sample.env) true [Sample.paper_a; Sample.paper_b] ∅
      (logged (Sample.start (Sample.world []) (Sample.disk []))
         (Main.filtered [Sample.paper_a; Sample.paper_b] [Sample.paper_a; Sample.paper_b] true))
    = (st1, Return ([Sample.paper_b], list_to_set (id <$> [Sample.paper_a; Sample.paper_b]))).
Proof.
  destruct (first_run_processes_latest (H:=Sample.env) Sample.settings
              [Sample.paper_a; Sample.paper_b] (Sample.start (Sample.world []) (Sample.disk [])))
    as (sel & pre & post & _ & Hl & Hpre & Hpost & Hplan & _); [done|].
  eexists. rewrite Hplan. do 3 f_equal.
  destruct pre as [|a [|b pre]].
  - injection Hl as <- <-. specialize (Hpost Sample.paper_b). discriminate Hpost. by left.
  - by injection Hl as _ <-.
  - apply (f_equal length) in Hl. rewrite length_app in Hl. simpl in Hl. lia.
Defined.

Lemma failures_are_isolated_witness :
  ∃ st' ids',
    Main.process_papers (H:=Sample.env) Sample.settings false
      (Main.new_papers [Sample.paper_a; Sample.paper_c; Sample.paper_b] {["2401.00001"]})
      {["2401.00001"]}
      (logged (Sample.start (Sample.world []) (Sample.disk []))
         (Main.filtered [Sample.paper_a; Sample.paper_c; Sample.paper_b]
            (Main.new_papers [Sample.paper_a; Sample.paper_c; Sample.paper_b] {["2401.00001"]}) false))
    = (st', Return ids') ∧
    "2401.00002" ∈ ids'.
Proof.
  destruct (failures_are_isolated (H:=Sample.env) Sample.settings {["2401.00001"]}
              [Sample.paper_a; Sample.paper_c; Sample.paper_b]
              (Sample.start (Sample.world []) (Sample.disk [])))
    as (st' & ids' & Hrun & _ & Hstep & _).
  - apply non_empty_singleton_L.
  - done.
  - exists st', ids'. split; [exact Hrun|].
    destruct (Hstep 1%nat Sample.paper_b) as (stk & idsk & Hpre & Hk); [reflexivity|].
    assert (Hok : ∃ st2, Main.pipeline (H:=Sample.env) Sample.settings Sample.paper_b
                          (logged stk (Main.processing Sample.paper_b)) = (st2, Return tt)).
    { assert (Hw : world stk = Sample.world []).
      { vm_compute in Hpre. by injection Hpre as <- _. }
      destruct stk as [w f l]. cbn in Hw. subst w. eexists. vm_compute. reflexivity. }
    destruct Hok as [st2 Hok]. rewrite Hok in Hk. by destruct Hk.
Defined.

Lemma duplicate_id_counterexample :
  (Main.main Sample.second_run).2 = Return 0%Z ∧
  Main.failed (Sample.paper "2401.00002" "http://arxiv.org/abs/missing" "2024-01-02T00:00:00Z")
    HTTPError ∈ log (Main.main Sample.second_run).1 ∧
  files (fs (Main.main Sample.second_run).1) !! Sample.ledger_file
  = Some (Storage.ledger_text {["2401.00001"; "2401.00002"]}).
Proof.
  split_and!.
  - vm_compute. reflexivity.
  - apply list_elem_of_lookup. exists 13%nat. vm_compute. reflexivity.
  - vm_compute. reflexivity.
Qed.



Lemma empty_fetch_is_noop_witness :
  (Main.main Sample.offline_run).2 = Return 0%Z ∧
  fs (Main.main Sample.offline_run).1 = fs Sample.offline_run.
Proof.
  edestruct (empty_fetch_is_noop (H:=Sample.env) Sample.offline_run) as [Hnoop Hdown].
  - vm_compute. reflexivity.
  - vm_compute. reflexivity.
  - destruct (Hdown (λ w, w = Sample.offline)) as [st2 Hfetch].
    + reflexivity.
    + intros url w -> _. exists (ExternalError "network"). done.
    + destruct (Hnoop st2 Hfetch) as (Hmain & Hfs & _). rewrite Hmain in *. done.
Defined.


Lemma ledger_only_grows_witness :
  ∃ saved,
    ({["2401.00001"]} : gset string) ⊆ saved ∧
    files (fs (Main.run (H:=Sample.env) Sample.settings {["2401.00001"]}
                 [Sample.paper_a; Sample.paper_b] Sample.second_run).1)
      !! storage_file Sample.settings
    = Some (Storage.ledger_text saved).
Proof.
  destruct (ledger_only_grows (H:=Sample.env) Sample.settings {["2401.00001"]}
              [Sample.paper_a; Sample.paper_b] Sample.second_run) as (_ & _ & Hrun & _).
  destruct (Main.run Sample.settings {["2401.00001"]} [Sample.paper_a; Sample.paper_b]
              Sample.second_run) as [st' o] eqn:E.
  apply (Hrun st'); [done|].
  f_equal. vm_compute in E. by injection E as _ <-.
Defined.

Lemma new_papers_stable_filter_witness :
  Main.new_papers [Sample.paper_a; Sample.paper_b] {["2401.00001"]} = [Sample.paper_b].
Proof.
  destruct (new_papers_stable_filter (H:=Sample.env) Sample.settings
              [Sample.paper_a; Sample.paper_b] {["2401.00001"]} Sample.second_run) as [-> _].
  vm_compute. reflexivity.
Defined.


(** * rss.py: entries and feeds *)

Lemma paper_id_returns raw : ∃ pid, Rss.paper_id raw = Return pid.
Proof.
  unfold Rss.paper_id. destruct (PyStr.contains "abs" raw); [rewrite split_last|]; eauto.
Qed.

Section entries.
Context `{Env}.

(** Property X1.  [_parse_entry] returns a paper exactly for the entries
    that have an id, a title and a link, and raises [AttributeError] for
    the others.  The paper's id is the identifier taken from the entry's
    id, its title is stripped and its link is the entry's.  Every other
    field may be missing: no publication date gives the empty string, no
    summary (or an empty one) the empty abstract, no tags no category, no
    announce type (or an empty one) none; the authors are the names in the
    entry's author list, the empty string for an author without a name,
    and only when that list is missing or empty the entry's single author,
    if it has one. *)
Theorem parse_entry_needs_id_title_link (entry : Entry) :
  (∀ raw t l,
     entry_id entry = Some raw → entry_title entry = Some t → entry_link entry = Some l →
     ∃ paper,
       Rss._parse_entry entry = Return paper ∧
       Rss.paper_id raw = Return (id paper) ∧
       title paper = strip t ∧ link paper = l ∧
       published paper = default "" (entry_published entry) ∧
       (entry_summary entry = None ∨ entry_summary entry = Some "" → abstract paper = "") ∧
       (entry_authors entry = None ∨ entry_authors entry = Some [] →
          authors paper = match entry_author entry with Some a => [a] | None => [] end) ∧
       (∀ names, entry_authors entry = Some names → names ≠ [] →
          authors paper = fmap (M:=list) (default "") names) ∧
       (entry_tags entry = None → categories paper = []) ∧
       (entry_arxiv_announce_type entry = None ∨ entry_arxiv_announce_type entry = Some "" →
          announce_type paper = None)) ∧
  (entry_id entry = None ∨ entry_title entry = None ∨ entry_link entry = None →
   Rss._parse_entry entry = Raise AttributeError).
Proof.
  split.
  - intros raw t l Hid Ht Hl. destruct (paper_id_returns raw) as [pid Hpid].
    unfold Rss._parse_entry. rewrite Hid, Ht, Hl. cbn. rewrite Hpid. cbn.
    eexists. split; [reflexivity|]. cbn. split_and!; try done.
    + by intros [->| ->].
    + by intros [->| ->].
    + intros names -> Hne. by destruct names.
    + by intros ->.
    + by intros [->| ->].
  - unfold Rss._parse_entry. intros [Hn|[Hn|Hn]].
    + by rewrite Hn.
    + destruct (entry_id entry) as [raw|]; [|done]. cbn.
      destruct (paper_id_returns raw) as [pid ->]. cbn. by rewrite Hn.
    + destruct (entry_id entry) as [raw|]; [|done]. cbn.
      destruct (paper_id_returns raw) as [pid ->]. cbn.
      destruct (entry_title entry); [|done]. cbn. by rewrite Hn.
Qed.

Lemma parse_loop entries acc st :
  for_each entries
    (λ entry papers,
       try_except
         (paper ← lift (Rss._parse_entry entry); mret (papers ++ [paper]))
         any_exception
         (λ e,
            logger Error "failed to parse entry"
              [("entry_id", FStr (default "unknown" (entry_id entry))); ("error", FExn e)];;
            mret papers))
    acc st
  = (MkState (world st) (fs st) (log st ++ omap Rss.parse_failure entries),
     Return (acc ++ omap Rss.parsed entries)).
Proof.
  revert acc st. induction entries as [|entry entries IH]; intros acc st.
  - cbn. rewrite !app_nil_r. by destruct st.
  - cbn [for_each omap list_omap]. unfold Rss.parsed at 1, Rss.parse_failure at 1.
    pose proof (parse_entry_modelled entry) as Hm.
    unfold mbind, M_bind, bind, try_except, lift, mret, M_ret, ret, logger in *.
    destruct (Rss._parse_entry entry) as [paper|e|]; [| |done]; cbn; rewrite IH; cbn;
      by rewrite <- app_assoc.
Qed.

(** Property X2.  When the feed can be fetched, [_parse_feed] returns the
    papers of the entries that parse, in the order of the feed, and logs
    one error line for each entry that does not, with the entry's id (or
    [unknown]); such an entry never makes [_parse_feed] raise.  When the
    feed cannot be fetched, [_parse_feed] raises what [feedparser] raised
    and logs nothing.  The file system is left as it was. *)
Theorem parse_feed_skips_bad_entries url st :
  Rss._parse_feed url st =
    match feedparser_parse url (world st) with
    | (w, inr entries) =>
        (MkState w (fs st) (log st ++ omap Rss.parse_failure entries),
         Return (omap Rss.parsed entries))
    | (w, inl e) => (MkState w (fs st) (log st), Raise e)
    end.
Proof.
  unfold Rss._parse_feed. rewrite bind_run. unfold call.
  destruct (feedparser_parse url (world st)) as [w [e|entries]]; [done|].
  by rewrite parse_loop.
Qed.

End entries.

Section feed_by_feed.
Context `{Env}.

(** One turn of the loop of [fetch_papers]. *)
Lemma fetch_turn url all_papers st :
  try_except
    (papers ← Rss._parse_feed url;
     logger Info "fetched papers from feed" [("url", FStr url); ("count", FInt (len papers))];;
     mret (all_papers ++ papers))
    any_exception
    (λ e,
       logger Error "failed to fetch feed" [("url", FStr url); ("error", FExn e)];;
       mret all_papers)
    st
  = match Rss._parse_feed url st with
    | (s, Return papers) =>
        (logged s (Log Info "fetched papers from feed"
                     [("url", FStr url); ("count", FInt (len papers))]),
         Return (all_papers ++ papers))
    | (s, Raise e) =>
        (logged s (Log Error "failed to fetch feed" [("url", FStr url); ("error", FExn e)]),
         Return all_papers)
    | (s, Unmodelled) => (s, Unmodelled)
    end.
Proof.
  unfold try_except. rewrite bind_run.
  by destruct (Rss._parse_feed url st) as [s [papers|e|]].
Qed.

(** The loop of [fetch_papers] adds what it fetches to what it is given. *)
Lemma fetch_loop_acc urls st :
  ∃ st' rest, ∀ acc,
    for_each urls
      (λ url all_papers,
         try_except
           (papers ← Rss._parse_feed url;
            logger Info "fetched papers from feed" [("url", FStr url); ("count", FInt (len papers))];;
            mret (all_papers ++ papers))
           any_exception
           (λ e,
              logger Error "failed to fetch feed" [("url", FStr url); ("error", FExn e)];;
              mret all_papers))
      acc st = (st', Return (acc ++ rest)).
Proof.
  revert st. induction urls as [|url urls IH]; intros st.
  - exists st, []. intros acc. cbn. by rewrite app_nil_r.
  - pose proof (parse_feed_modelled url st) as Hm.
    destruct (Rss._parse_feed url st) as [st1 [papers|e|]] eqn:Hfeed; [| |done].
    + destruct (IH (logged st1 (Log Info "fetched papers from feed"
                                  [("url", FStr url); ("count", FInt (len papers))])))
        as (st' & rest & Hloop).
      exists st', (papers ++ rest). intros acc. cbn [for_each].
      rewrite bind_run, fetch_turn, Hfeed, app_assoc. apply Hloop.
    + destruct (IH (logged st1 (Log Error "failed to fetch feed" [("url", FStr url); ("error", FExn e)])))
        as (st' & rest & Hloop).
      exists st', rest. intros acc. cbn [for_each].
      rewrite bind_run, fetch_turn, Hfeed. apply Hloop.
Qed.

(** Property X3.  The papers fetched from the feeds [url :: urls] are the
    papers of [url], none when fetching [url] raised, followed by the
    papers fetched from [urls] in the state the first feed leaves: the
    order of the feeds is kept, and a feed that fails is logged and does
    not stop the feeds after it. *)
Theorem fetch_papers_feed_by_feed url urls st :
  ∃ first st1 rest st2 st',
    match Rss._parse_feed url st with
    | (s, Return papers) =>
        first = papers ∧
        st1 = logged s (Log Info "fetched papers from feed"
                          [("url", FStr url); ("count", FInt (len papers))])
    | (s, Raise e) =>
        first = [] ∧
        st1 = logged s (Log Error "failed to fetch feed" [("url", FStr url); ("error", FExn e)])
    | (s, Unmodelled) => False
    end ∧
    Rss.fetch_papers urls st1 = (st2, Return rest) ∧
    Rss.fetch_papers (url :: urls) st = (st', Return (first ++ rest)) ∧
    world st' = world st2 ∧ fs st' = fs st2.
Proof.
  pose proof (parse_feed_modelled url st) as Hm.
  destruct (Rss._parse_feed url st) as [s [papers|e|]] eqn:Hfeed; [| |done].
  - set (st1 := logged s (Log Info "fetched papers from feed"
                            [("url", FStr url); ("count", FInt (len papers))])).
    destruct (fetch_loop_acc urls st1) as (st2 & rest & Hloop).
    eexists papers, st1, rest, _, _. split_and!; [done|done|..].
    + unfold Rss.fetch_papers. rewrite bind_run, (Hloop []). reflexivity.
    + unfold Rss.fetch_papers. rewrite bind_run. cbn [for_each].
      rewrite bind_run, fetch_turn, Hfeed. fold st1. rewrite (Hloop ([] ++ papers)). reflexivity.
    + done.
    + done.
  - set (st1 := logged s (Log Error "failed to fetch feed" [("url", FStr url); ("error", FExn e)])).
    destruct (fetch_loop_acc urls st1) as (st2 & rest & Hloop).
    eexists [], st1, rest, _, _. split_and!; [done|done|..].
    + unfold Rss.fetch_papers. rewrite bind_run, (Hloop []). reflexivity.
    + unfold Rss.fetch_papers. rewrite bind_run. cbn [for_each].
      rewrite bind_run, fetch_turn, Hfeed. fold st1. rewrite (Hloop []). reflexivity.
    + done.
    + done.
Qed.

End feed_by_feed.


(** * storage.py: files not written by [save_notified_ids] *)

Section ledger_files.
Context `{Env}.



End ledger_files.




(** * main.py: what a run reports and what it leaves behind *)

Lemma count_msg_app msg l1 l2 : count_msg msg (l1 ++ l2) = count_msg msg l1 + count_msg msg l2.
Proof. unfold count_msg. by rewrite filter_app, length_app. Qed.

Lemma count_msg_silent msg l :
  is_report (Log Info msg []) = true → Forall silent l → count_msg msg l = 0.
Proof.
  intros Hmsg. unfold count_msg. induction 1 as [|ev l Hev _ IH]; [done|].
  rewrite filter_cons. case_decide as Heq; [|exact IH].
  unfold silent, is_report in *. cbn [ev_msg] in Hmsg. rewrite Heq in Hev. congruence.
Qed.

Section reports.
Context `{Env}.

Lemma download_pdf_silent paper_id pdf_url : keeps (frame silent) (Pdf.download_pdf paper_id pdf_url).
Proof. unfold Pdf.download_pdf. repeat keeps_step. Qed.

Lemma extract_first_page_silent content n : keeps (frame silent) (Pdf.extract_first_page content n).
Proof. unfold Pdf.extract_first_page. repeat keeps_step. Qed.

Lemma summarize_silent model template paper pdf :
  keeps (frame silent) (Summarizer.summarize model template paper pdf).
Proof.
  unfold Summarizer.summarize. apply frame_try; [|intros e; repeat keeps_step].
  apply frame_bind; [apply frame_lift|intros prompt].
  apply frame_bind; [by apply keeps_logger|intros _].
  apply frame_bind; [apply keeps_call|intros [summary [[? ?] ?]]].
  repeat keeps_step.
Qed.

Lemma send_notification_run paper summary st :
  Notifier.send_notification paper summary st =
    match smtp_send paper summary (world st) with
    | (w, inr _) =>
        (MkState w (fs st)
           (log st ++ [Log Info "sent email notification"
                         [("paper_id", FStr (id paper)); ("paper_title", FStr (title paper));
                          ("recipient_count", FInt 1)]]),
         Return tt)
    | (w, inl e) =>
        (MkState w (fs st)
           (log st ++ [Log Error "failed to send email" [("paper_id", FStr (id paper)); ("error", FExn e)]]),
         Raise e)
    end.
Proof.
  unfold Notifier.send_notification, try_except. rewrite bind_run. unfold call.
  by destruct (smtp_send paper summary (world st)) as [w [e|[]]].
Qed.

(** The log of the pipeline: one line for the email when it returns, and
    no line of the loop's own. *)
Lemma pipeline_reports settings paper st :
  ∃ delta,
    log (Main.pipeline settings paper st).1 = log st ++ delta ∧
    count_msg "processing paper" delta = 0 ∧
    count_msg "successfully processed paper" delta = 0 ∧
    count_msg "failed to process paper" delta = 0 ∧
    count_msg "sent email notification" delta
    = match (Main.pipeline settings paper st).2 with Return _ => 1 | _ => 0 end.
Proof.
  assert (Hquiet : ∀ st' : state, frame silent st st' →
            ∃ delta, log st' = log st ++ delta ∧
              count_msg "processing paper" delta = 0 ∧
              count_msg "successfully processed paper" delta = 0 ∧
              count_msg "failed to process paper" delta = 0 ∧
              count_msg "sent email notification" delta = 0).
  { intros st' [_ (delta & Hl & Hd)]. exists delta. split; [done|].
    split_and!; by apply count_msg_silent. }
  unfold Main.pipeline. rewrite bind_run.
  pose proof (download_pdf_silent (id paper) (Pdf.get_pdf_url (link paper)) st) as H1.
  destruct (Pdf.download_pdf _ _ st) as [st1 [content|e|]]; cbn [fst snd] in *;
    [|by apply Hquiet..].
  rewrite bind_run.
  pose proof (extract_first_page_silent content (gemini_pdf_pages settings) st1) as H2.
  destruct (Pdf.extract_first_page _ _ st1) as [st2 [pages|e|]]; cbn [fst snd] in *;
    [|apply Hquiet; by etrans..].
  rewrite bind_run.
  pose proof (summarize_silent (gemini_model settings) (gemini_prompt settings) paper
                (Pdf.encode_pdf_base64 pages) st2) as H3.
  destruct (Summarizer.summarize _ _ _ _ st2) as [st3 [summary|e|]]; cbn [fst snd] in *;
    [|apply Hquiet; etrans; [|done]; by etrans..].
  assert (H03 : frame silent st st3) by (etrans; [|done]; by etrans).
  destruct H03 as [_ (delta & Hl & Hd)].
  rewrite send_notification_run.
  destruct (smtp_send paper summary (world st3)) as [w [e|[]]]; cbn [fst snd log].
  - eexists (delta ++ [_]). rewrite Hl, <- app_assoc. split; [done|].
    rewrite !count_msg_app, !(count_msg_silent _ delta) by done. done.
  - eexists (delta ++ [_]). rewrite Hl, <- app_assoc. split; [done|].
    rewrite !count_msg_app, !(count_msg_silent _ delta) by done. done.
Qed.

Lemma process_paper_reports settings is_first_run paper ids st :
  ∃ st' ids' delta,
    Main.process_paper settings is_first_run paper ids st = (st', Return ids') ∧
    log st' = log st ++ delta ∧
    count_msg "processing paper" delta = 1 ∧
    count_msg "successfully processed paper" delta + count_msg "failed to process paper" delta = 1 ∧
    count_msg "sent email notification" delta = count_msg "successfully processed paper" delta.
Proof.
  rewrite process_paper_run.
  destruct (pipeline_reports settings paper (logged st (Main.processing paper)))
    as (delta & Hl & H1 & H2 & H3 & H4).
  pose proof (pipeline_modelled settings paper (logged st (Main.processing paper))) as Hm.
  destruct (Main.pipeline settings paper (logged st (Main.processing paper))) as [st' [[]|e|]];
    cbn [fst snd] in *; [| |done].
  - eexists _, _, ([Main.processing paper] ++ delta ++ [Main.processed paper]).
    split; [done|]. split; [cbn [log logged]; rewrite Hl; cbn [log logged]; by rewrite <- !app_assoc|].
    rewrite !count_msg_app, H1, H2, H3, H4. done.
  - eexists _, _, ([Main.processing paper] ++ delta ++ [Main.failed paper e]).
    split; [done|]. split; [cbn [log logged]; rewrite Hl; cbn [log logged]; by rewrite <- !app_assoc|].
    rewrite !count_msg_app, H1, H2, H3, H4. done.
Qed.

Lemma process_papers_reports settings is_first_run papers ids st :
  ∃ st' ids' delta,
    Main.process_papers settings is_first_run papers ids st = (st', Return ids') ∧
    log st' = log st ++ delta ∧
    count_msg "processing paper" delta = length papers ∧
    count_msg "successfully processed paper" delta + count_msg "failed to process paper" delta
    = length papers ∧
    count_msg "sent email notification" delta = count_msg "successfully processed paper" delta.
Proof.
  unfold Main.process_papers. revert ids st.
  induction papers as [|p papers IH]; intros ids st.
  - exists st, ids, []. cbn. by rewrite app_nil_r.
  - cbn [for_each]. rewrite bind_run.
    destruct (process_paper_reports settings is_first_run p ids st)
      as (st1 & ids1 & d1 & -> & Hl1 & Ha1 & Hb1 & Hc1).
    destruct (IH ids1 st1) as (st' & ids' & d2 & -> & Hl2 & Ha2 & Hb2 & Hc2).
    exists st', ids', (d1 ++ d2). split; [done|]. split; [by rewrite Hl2, Hl1, app_assoc|].
    rewrite !count_msg_app. cbn [length]. lia.
Qed.


End reports.


(** * main.py: the pipeline, stage by stage *)

Section stages.
Context `{Env}.





End stages.



(** * main.py: one run after another *)

Lemma new_papers_known papers (ids : gset string) :
  (∀ p, p ∈ papers → id p ∈ ids) → Main.new_papers papers ids = [].
Proof.
  induction papers as [|p papers IH]; [done|]. intros Hin. cbn [Main.new_papers].
  rewrite decide_True by (apply Hin; by left). apply IH. intros q Hq. apply Hin. by right.
Qed.

Lemma latest_length new : (length (Main.latest new) ≤ 1)%nat.
Proof. unfold Main.latest. rewrite length_take. lia. Qed.

Lemma new_papers_length papers (ids : gset string) :
  (length (Main.new_papers papers ids) ≤ length papers)%nat.
Proof. rewrite new_papers_filter. apply length_filter. Qed.

Section runs.
Context `{Env}.

(** Property X12.  A run reports at most as many mails sent as there are
    new papers, and at most one when the loaded ledger is empty. *)
Theorem run_sends_at_most_new settings (ids : gset string) papers st :
  ∃ delta,
    log (Main.run settings ids papers st).1 = log st ++ delta ∧
    (count_msg "sent email notification" delta ≤ length (Main.new_papers papers ids))%nat ∧
    (ids = ∅ → (count_msg "sent email notification" delta ≤ 1)%nat).
Proof.
  destruct (decide (papers = [])) as [->|Hne].
  { exists [Log Info "no papers found in feeds" []]. split; [done|]. split; [done|]. intros _.
    cbv. lia. }
  rewrite run_nonempty by done. set (new := Main.new_papers papers ids).
  set (first := bool_decide (size ids = 0%nat)). set (st0 := logged st _).
  rewrite bind_run, plan_run.
  assert (Hplan : ∃ st1 to_process ids1 d1,
            (if first && negb (Main.is_empty new)
             then (logged st0 Main.first_run_detected, Return (Main.latest new, Main.mark_all new ids))
             else (st0, Return (new, ids))) = (st1, Return (to_process, ids1)) ∧
            log st1 = log st0 ++ d1 ∧ count_msg "sent email notification" d1 = 0 ∧
            (length to_process ≤ length new)%nat ∧ (first = true → (length to_process ≤ 1)%nat)).
  { destruct first, new as [|p new'] eqn:Hnew; cbn [andb negb Main.is_empty].
    - exists st0, [], ids, []. rewrite app_nil_r. cbn. split_and!; try done; lia.
    - eexists _, _, _, [Main.first_run_detected]. split; [done|]. split; [done|]. split; [done|].
      pose proof (latest_length (p :: new')). cbn [length] in *. split; [lia|done].
    - exists st0, [], ids, []. rewrite app_nil_r. cbn. split_and!; try done; lia.
    - eexists _, _, _, []. rewrite app_nil_r. split; [done|]. split; [done|]. split; [done|].
      split; [done|]. discriminate. }
  destruct Hplan as (st1 & to_process & ids1 & d1 & -> & Hl1 & Hc1 & Hlen & Hfirst).
  rewrite bind_run.
  destruct (process_papers_reports settings first to_process ids1 st1)
    as (st2 & ids2 & d2 & -> & Hl2 & _ & Hsum & Hsent).
  rewrite finish_run.
  assert (Hfin : ∃ d3, log (if decide (storage_file settings ∈ denied (fs st2))
                    then (logged st2 (Log Error "failed to save storage file"
                                        [("error", FExn OSError); ("path", FStr (storage_file settings))]),
                          Raise OSError)
                    else (logged (logged (written st2 (storage_file settings) (Storage.ledger_text ids2))
                                    (Log Info "saved notified paper ids"
                                       [("count", FInt (Z.of_nat (size ids2)))]))
                            (Log Info "arxiv watcher completed"
                               [("papers_processed", FInt (len new));
                                ("total_notified", FInt (Z.of_nat (size ids2)))]),
                          Return tt)).1 = log st2 ++ d3 ∧
                 count_msg "sent email notification" d3 = 0).
  { case_decide.
    - eexists [_]. split; reflexivity.
    - eexists [_; _]. split; [cbn [fst log logged written]; by rewrite <- app_assoc|reflexivity]. }
  destruct Hfin as (d3 & Hl3 & Hc3).
  exists ([Main.filtered papers new first] ++ d1 ++ d2 ++ d3).
  split.
  { rewrite Hl3, Hl2, Hl1. unfold st0. cbn [log logged]. by rewrite <- !app_assoc. }
  rewrite !count_msg_app, Hc1, Hc3.
  change (count_msg "sent email notification" [Main.filtered papers new first]) with 0.
  split; [lia|]. intros ->. specialize (Hfirst eq_refl). lia.
Qed.

Lemma nonempty_ledger (ids : gset string) i : i ∈ ids → bool_decide (size ids = 0%nat) = false.
Proof.
  intros Hi. apply bool_decide_eq_false_2. intros Hs%size_empty_inv.
  by apply (not_elem_of_empty (C:=gset string) i), Hs.
Qed.

(** Property X13.  A run that fetches some paper and finds the id of
    every fetched paper in its ledger, when the ledger file can be
    written, returns without a call that leaves the process (the outside
    world is as it was), writes the ledger it loaded, which leaves the file
    system as it was if the file held that ledger, and logs three lines:
    no paper is new, the ledger is saved, the run is complete. *)
Theorem rerun_is_noop settings papers (ids : gset string) st :
  papers ≠ [] →
  (∀ p, p ∈ papers → id p ∈ ids) →
  storage_file settings ∉ denied (fs st) →
  ∃ st',
    Main.run settings ids papers st = (st', Return tt) ∧
    world st' = world st ∧
    files (fs st') = <[storage_file settings := Storage.ledger_text ids]> (files (fs st)) ∧
    (files (fs st) !! storage_file settings = Some (Storage.ledger_text ids) → fs st' = fs st) ∧
    log st' = log st ++
      [Main.filtered papers [] false;
       Log Info "saved notified paper ids" [("count", FInt (Z.of_nat (size ids)))];
       Log Info "arxiv watcher completed"
         [("papers_processed", FInt 0); ("total_notified", FInt (Z.of_nat (size ids)))]].
Proof.
  intros Hne Hknown Hd.
  assert (Hfirst : bool_decide (size ids = 0%nat) = false).
  { destruct papers as [|p papers]; [done|]. apply (nonempty_ledger ids (id p)), Hknown. by left. }
  rewrite run_nonempty by done. rewrite Hfirst, (new_papers_known _ _ Hknown).
  rewrite bind_run, plan_run. cbn [andb]. rewrite bind_run.
  unfold Main.process_papers. cbn [for_each]. unfold ret.
  rewrite finish_run. rewrite decide_False by done.
  eexists. split; [reflexivity|]. split_and!.
  - done.
  - done.
  - intros Hf. cbn. destruct (fs st) as [fl dn]. cbn in *. f_equal. by apply insert_id.
  - cbn. by rewrite <- !app_assoc.
Qed.

(** Property X14.  After a first run that fetched some paper and can
    write its ledger file, the file holds the ids of all fetched papers,
    whatever happened to the one that was processed; loading it gives
    that set, and against it no fetched paper is new. *)
Theorem first_run_ledger_holds_every_id settings papers st :
  papers ≠ [] →
  storage_file settings ∉ denied (fs st) →
  ∃ st1 st2,
    Main.run settings ∅ papers st = (st1, Return tt) ∧
    files (fs st1) !! storage_file settings
    = Some (Storage.ledger_text (list_to_set (id <$> papers))) ∧
    Storage.load_notified_ids (storage_file settings) st1
    = (st2, Return (list_to_set (id <$> papers))) ∧
    Main.new_papers papers (list_to_set (id <$> papers)) = [].
Proof.
  intros Hne Hd. rewrite run_nonempty by done. rewrite new_papers_empty.
  change (bool_decide (size (∅ : gset string) = 0%nat)) with true.
  rewrite bind_run, plan_run.
  assert (Hnew : Main.is_empty papers = false) by by destruct papers.
  rewrite Hnew. cbn [andb negb]. rewrite bind_run, mark_all_union, (left_id_L ∅ (∪)).
  set (st0 := logged (logged st _) _).
  pose proof (process_papers_about settings true (Main.latest papers) (list_to_set (id <$> papers)) st0)
    as [Hfs _].
  destruct (process_papers_first_run settings (Main.latest papers) (list_to_set (id <$> papers)) st0)
    as [st' Hrun].
  rewrite Hrun in Hfs |- *. cbn [fst] in Hfs.
  rewrite finish_run. rewrite decide_False by by rewrite Hfs.
  eexists _, _. split; [reflexivity|].
  assert (Hfile : files (fs (logged (logged (written st' (storage_file settings)
                     (Storage.ledger_text (list_to_set (id <$> papers))))
                     (Log Info "saved notified paper ids"
                        [("count", FInt (Z.of_nat (size (list_to_set (id <$> papers) : gset string))))]))
                     (Log Info "arxiv watcher completed"
                        [("papers_processed", FInt (len papers));
                         ("total_notified",
                          FInt (Z.of_nat (size (list_to_set (id <$> papers) : gset string))))])))
                   !! storage_file settings
                 = Some (Storage.ledger_text (list_to_set (id <$> papers))))
    by apply lookup_insert_eq.
  split; [exact Hfile|]. split.
  - apply load_ledger_text; [exact Hfile|]. cbn. by rewrite Hfs.
  - apply new_papers_known. intros p Hp. apply elem_of_list_to_set, list_elem_of_fmap. eauto.
Qed.

(** Property X15.  When the settings cannot be read, [main] ends with
    exit status 1 after two log lines, the start of the run and its
    failure with the exception raised; no feed is fetched and no file is
    written. *)
Theorem config_error_is_fatal st e :
  read_settings (world st) = inl e →
  Main.main st =
    (logged (logged st (Log Info "starting arxiv watcher" []))
       (Log Error "arxiv watcher failed" [("error", FExn e)]),
     Return 1%Z).
Proof.
  intros He. rewrite main_run, body_run.
  assert (Hstart : Main.startup st = (logged st (Log Info "starting arxiv watcher" []), Raise e)).
  { unfold Main.startup. rewrite bind_run. cbn. rewrite bind_run.
    unfold Config.get_settings. cbn. by rewrite He. }
  by rewrite Hstart.
Qed.

(** Property X10.  When the download of a paper's PDF fails, the loop
    body returns with the ledger as it was, on the first run or not; the
    outside world is the one the failed request leaves, so no summary is
    requested and no mail is sent; and the log grows by the line that the
    paper is processed, the line that the download starts, the download's
    own error line if the failure is an [HTTPError], and the line of the
    loop that the paper failed, with the exception of the request. *)
Theorem failed_download_stops_pipeline settings is_first_run paper ids st w e :
  httpx_get (Pdf.get_pdf_url (link paper)) (world st) = (w, inl e) →
  Main.process_paper settings is_first_run paper ids st =
    (MkState w (fs st)
       (log st ++
          [Main.processing paper;
           Log Info "downloading pdf"
             [("paper_id", FStr (id paper)); ("url", FStr (Pdf.get_pdf_url (link paper)))]] ++
          (if Pdf.http_error e
           then [Log Error "failed to download pdf"
                   [("paper_id", FStr (id paper)); ("url", FStr (Pdf.get_pdf_url (link paper)));
                    ("error", FExn e)]]
           else []) ++
          [Main.failed paper e]),
     Return ids).
Proof.
  intros Hget. rewrite process_paper_run. unfold Main.pipeline. rewrite bind_run.
  unfold Pdf.download_pdf. rewrite bind_run. cbn [logger]. unfold try_except.
  rewrite bind_run. unfold call. cbn [world logged]. rewrite Hget.
  destruct (Pdf.http_error e); unfold mbind, M_bind, bind, logger, raise, logged;
    cbn [world fs log app]; by rewrite <- !app_assoc.
Qed.

End runs.


(** * main.py: what the saved ledger can hold *)

Section bounds.
Context `{Env}.

(** The loop adds no id but the ids of the papers it is given. *)
Lemma process_papers_bound settings is_first_run papers (ids : gset string) st st' ids' :
  Main.process_papers settings is_first_run papers ids st = (st', Return ids') →
  ids' ⊆ ids ∪ list_to_set (id <$> papers).
Proof.
  unfold Main.process_papers. revert ids st.
  induction papers as [|p papers IH]; intros ids st; cbn [for_each].
  - intros [= _ <-]. apply union_subseteq_l.
  - rewrite bind_run, process_paper_run.
    destruct (Main.pipeline settings p (logged st (Main.processing p))) as [st1 [[]|e|]]; [| |done];
      intros Hrest%IH; cbn [fmap list_fmap list_to_set];
      intros i Hi; apply Hrest in Hi; revert Hi;
      rewrite !elem_of_union, ?elem_of_singleton; destruct is_first_run;
      rewrite ?elem_of_union, ?elem_of_singleton; tauto.
Qed.

(** Property X16.  When a run that fetched some paper returns, the ledger
    file holds a set between the loaded ledger and the loaded ledger with
    the ids of the new papers: every id in it was loaded or is the id of a
    fetched paper that was not in the loaded ledger. *)
Theorem ledger_holds_only_loaded_or_fetched settings (ids : gset string) papers st st' :
  papers ≠ [] →
  Main.run settings ids papers st = (st', Return tt) →
  ∃ saved,
    files (fs st') !! storage_file settings = Some (Storage.ledger_text saved) ∧
    ids ⊆ saved ∧
    saved ⊆ ids ∪ list_to_set (id <$> Main.new_papers papers ids) ∧
    ∀ i, i ∈ saved → i ∈ ids ∨ ∃ p, p ∈ papers ∧ id p = i ∧ i ∉ ids.
Proof.
  intros Hne. rewrite run_nonempty by done. set (new := Main.new_papers papers ids).
  set (first := bool_decide (size ids = 0%nat)). set (st0 := logged st _).
  rewrite bind_run, plan_run.
  assert (Hplan : ∃ st1 to_process ids1,
            (if first && negb (Main.is_empty new)
             then (logged st0 Main.first_run_detected, Return (Main.latest new, Main.mark_all new ids))
             else (st0, Return (new, ids))) = (st1, Return (to_process, ids1)) ∧
            to_process ⊆ new ∧ ids ⊆ ids1 ∧ ids1 ⊆ ids ∪ list_to_set (id <$> new)).
  { destruct (first && negb (Main.is_empty new)).
    - eexists _, _, _. split; [done|]. rewrite mark_all_union.
      split; [apply latest_subseteq|]. split; [apply union_subseteq_l|done].
    - eexists _, _, _. split; [done|]. split; [done|]. split; [done|apply union_subseteq_l]. }
  destruct Hplan as (st1 & to_process & ids1 & -> & Hsub & Hlow & Hup).
  rewrite bind_run.
  destruct (process_papers_returns settings first to_process ids1 st1) as (st2 & ids2 & Hrun).
  rewrite Hrun, finish_run. case_decide as Hd; [done|]. intros [= <-].
  pose proof (process_papers_grows _ _ _ _ _ _ _ Hrun) as Hlow2.
  pose proof (process_papers_bound _ _ _ _ _ _ _ Hrun) as Hup2.
  assert (Hids : ids2 ⊆ ids ∪ list_to_set (id <$> new)).
  { intros i Hi. apply Hup2 in Hi. apply elem_of_union in Hi as [Hi|Hi]; [by apply Hup|].
    apply elem_of_union_r. apply elem_of_list_to_set, list_elem_of_fmap in Hi as (p & -> & Hp).
    apply elem_of_list_to_set, list_elem_of_fmap. exists p. split; [done|]. by apply Hsub. }
  exists ids2. split_and!.
  - apply lookup_insert_eq.
  - by etrans.
  - exact Hids.
  - intros i Hi. apply Hids in Hi. apply elem_of_union in Hi as [Hi|Hi]; [by left|]. right.
    apply elem_of_list_to_set, list_elem_of_fmap in Hi as (p & -> & Hp).
    unfold new in Hp. rewrite new_papers_filter in Hp. apply list_elem_of_filter in Hp as [? ?].
    by exists p.
Qed.

End bounds.


(** * The further properties at work on the sample environment *)

Lemma fetch_papers_feed_by_feed_witness :
  (Rss.fetch_papers (H:=Sample.env)
     ["https://rss.arxiv.org/rss/cs.AI"; "https://rss.arxiv.org/rss/cs.LG"]
     (Sample.start Sample.two_feeds (Sample.disk []))).2
  = Return [Sample.paper_a].
Proof.
  destruct (fetch_papers_feed_by_feed (H:=Sample.env) "https://rss.arxiv.org/rss/cs.AI"
              ["https://rss.arxiv.org/rss/cs.LG"] (Sample.start Sample.two_feeds (Sample.disk [])))
    as (first & st1 & rest & st2 & st' & Hfirst & Hrest & -> & _).
  vm_compute in Hfirst. destruct Hfirst as [-> ->].
  vm_compute in Hrest. by injection Hrest as _ <-.
Defined.

Lemma rerun_is_noop_witness :
  ∃ st',
    Main.run (H:=Sample.env) Sample.settings {["2401.00001"; "2401.00002"]}
      [Sample.paper_a; Sample.paper_b] (Sample.start (Sample.world []) (Sample.disk []))
    = (st', Return tt) ∧
    world st' = Sample.world [].
Proof.
  destruct (rerun_is_noop (H:=Sample.env) Sample.settings [Sample.paper_a; Sample.paper_b]
              {["2401.00001"; "2401.00002"]} (Sample.start (Sample.world []) (Sample.disk [])))
    as (st' & Hrun & Hw & _).
  - discriminate.
  - intros p Hp. apply elem_of_cons in Hp as [->|Hp]; [by apply elem_of_union_l, elem_of_singleton|].
    apply list_elem_of_singleton in Hp as ->. by apply elem_of_union_r, elem_of_singleton.
  - cbn. apply not_elem_of_empty.
  - exists st'. split; [exact Hrun|exact Hw].
Defined.

Lemma first_run_ledger_holds_every_id_witness :
  ∃ st1 st2,
    Main.run (H:=Sample.env) Sample.settings ∅ [Sample.paper_a; Sample.paper_b]
      (Sample.start (Sample.world []) (Sample.disk [])) = (st1, Return tt) ∧
    Storage.load_notified_ids (storage_file Sample.settings) st1
    = (st2, Return (list_to_set (id <$> [Sample.paper_a; Sample.paper_b]))).
Proof.
  destruct (first_run_ledger_holds_every_id (H:=Sample.env) Sample.settings
              [Sample.paper_a; Sample.paper_b] (Sample.start (Sample.world []) (Sample.disk [])))
    as (st1 & st2 & Hrun & _ & Hload & _).
  - discriminate.
  - cbn. apply not_elem_of_empty.
  - exists st1, st2. split; [exact Hrun|exact Hload].
Defined.

Lemma config_error_is_fatal_witness :
  (Main.main (H:=Sample.env) (Sample.start Sample.unconfigured (Sample.disk []))).2 = Return 1%Z ∧
  fs (Main.main (H:=Sample.env) (Sample.start Sample.unconfigured (Sample.disk []))).1 = Sample.disk [].
Proof.
  rewrite (config_error_is_fatal (H:=Sample.env) (Sample.start Sample.unconfigured (Sample.disk []))
             ValidationError eq_refl).
  by split.
Defined.

Lemma failed_download_stops_pipeline_witness :
  (Main.process_paper (H:=Sample.env) Sample.settings false Sample.paper_c {["2401.00001"]}
     (Sample.start (Sample.world []) (Sample.disk []))).2
  = Return {["2401.00001"]}.
Proof.
  by rewrite (failed_download_stops_pipeline (H:=Sample.env) Sample.settings false Sample.paper_c
                {["2401.00001"]} (Sample.start (Sample.world []) (Sample.disk []))
                (Sample.world []) HTTPError eq_refl).
Defined.

Lemma ledger_holds_only_loaded_or_fetched_witness :
  ∃ saved,
    files (fs (Main.run (H:=Sample.env) Sample.settings {["2401.00001"]}
                 [Sample.paper_a; Sample.paper_c; Sample.paper_b]
                 (Sample.start (Sample.world []) (Sample.disk []))).1)
      !! storage_file Sample.settings
    = Some (Storage.ledger_text saved) ∧
    saved ⊆ {["2401.00001"]} ∪ list_to_set (id <$> [Sample.paper_c; Sample.paper_b]).
Proof.
  destruct (Main.run Sample.settings {["2401.00001"]} [Sample.paper_a; Sample.paper_c; Sample.paper_b]
              (Sample.start (Sample.world []) (Sample.disk []))) as [st' o] eqn:E.
  destruct (ledger_holds_only_loaded_or_fetched (H:=Sample.env) Sample.settings {["2401.00001"]}
              [Sample.paper_a; Sample.paper_c; Sample.paper_b]
              (Sample.start (Sample.world []) (Sample.disk [])) st')
    as (saved & Hfile & _ & Hup & _).
  - discriminate.
  - rewrite E. f_equal. vm_compute in E. by injection E as _ <-.
  - exists saved. split; [exact Hfile|exact Hup].
Defined.
